(** * Policy-optimisation core of deep-rl: a shallow embedding

    The numerical routines of [proj/common/utils.py] and the two training
    loops [proj/algorithms/natural.py] and [proj/algorithms/ddpg.py] are
    transcribed as Rocq functions.  Tensor arithmetic is kept abstract behind
    the [Scalar] interface, so every structural theorem holds for whatever
    arithmetic the tensors carry; IEEE binary64 ([PrimFloat]) is the instance
    used to run the code on concrete inputs. *)

From Stdlib Require Import ZArith List Bool Lia.
From Stdlib Require Import PrimFloat FloatOps SpecFloat Uint63.
From Stdlib Require Import String Ascii DecimalString DecimalZ DecimalPos.
From stdpp Require Import base option list gmap strings sorting.
Import ListNotations.

Local Open Scope nat_scope.

(** ** Scalars *)

(** The arithmetic a tensor element supports.  No algebraic law is assumed:
    floating point satisfies very few. *)
Class Scalar (F : Type) := {
  fzero : F;
  fone : F;
  fadd : F -> F -> F;
  fsub : F -> F -> F;
  fmul : F -> F -> F;
  fdiv : F -> F -> F;
  fsqrt : F -> F;
  fabs : F -> F;
  fltb : F -> F -> bool;        (* Python [<] *)
  fleb : F -> F -> bool;        (* Python [<=] *)
  of_Z : Z -> F;                (* int -> float promotion *)
  to_int : F -> option Z        (* Python [int(x)]; [None] when it raises *)
}.

Declare Scope scal_scope.
Delimit Scope scal_scope with S.
Infix "+" := fadd : scal_scope.
Infix "-" := fsub : scal_scope.
Infix "*" := fmul : scal_scope.
Infix "/" := fdiv : scal_scope.
Infix "<?" := fltb : scal_scope.
Infix "<=?" := fleb : scal_scope.

(** A decimal literal [n / d], e.g. [1e-8] is [flit 1 (10^8)]. *)
Definition flit `{Scalar F} (n d : Z) : F := (of_Z n / of_Z d)%S.

(** Python [x > y]. *)
Definition fgtb `{Scalar F} (x y : F) : bool := (y <? x)%S.

(** *** IEEE binary64 *)

Module Float64.

(** Exact up to [2^53] in magnitude, rounded to nearest up to [2^63]. *)
Definition float_of_Z (z : Z) : float :=
  match z with
  | Z0 => PrimFloat.zero
  | Zpos _ => PrimFloat.of_uint63 (Uint63.of_Z z)
  | Zneg p => PrimFloat.opp (PrimFloat.of_uint63 (Uint63.of_Z (Zpos p)))
  end.

(** [int(x)] truncates toward zero and raises on infinities and NaN. *)
Definition float_to_int (x : float) : option Z :=
  match Prim2SF x with
  | S754_zero _ => Some 0%Z
  | S754_finite s m e =>
      let a := match e with
               | Zneg k => Z.shiftr (Zpos m) (Zpos k)
               | _ => Z.shiftl (Zpos m) e
               end in
      Some (if s then Z.opp a else a)
  | _ => None
  end.

(** Python [round(x)]: nearest integer, ties to even. *)
Definition round (x : float) : option Z :=
  match Prim2SF x with
  | S754_zero _ => Some 0%Z
  | S754_finite s m e =>
      let a := match e with
               | Zneg k =>
                   let q := Z.shiftr (Zpos m) (Zpos k) in
                   let rem2 := (2 * (Zpos m - Z.shiftl q (Zpos k)))%Z in
                   let unit := Z.shiftl 1 (Zpos k) in
                   match (rem2 ?= unit)%Z with
                   | Lt => q
                   | Gt => (q + 1)%Z
                   | Eq => if Z.even q then q else (q + 1)%Z
                   end
               | _ => Z.shiftl (Zpos m) e
               end in
      Some (if s then Z.opp a else a)
  | _ => None
  end.

Definition is_finite (x : float) : bool :=
  negb (PrimFloat.is_nan x || PrimFloat.is_infinity x).

#[export] Instance scalar : Scalar float := {|
  fzero := PrimFloat.zero;
  fone := PrimFloat.one;
  fadd := PrimFloat.add;
  fsub := PrimFloat.sub;
  fmul := PrimFloat.mul;
  fdiv := PrimFloat.div;
  fsqrt := PrimFloat.sqrt;
  fabs := PrimFloat.abs;
  fltb := PrimFloat.ltb;
  fleb := PrimFloat.leb;
  of_Z := float_of_Z;
  to_int := float_to_int
|}.

End Float64.

(** *** Exact integers, used where a theorem needs ring laws *)

Module IntScalar.

#[export] Instance scalar : Scalar Z := {|
  fzero := 0%Z;
  fone := 1%Z;
  fadd := Z.add;
  fsub := Z.sub;
  fmul := Z.mul;
  fdiv := Z.div;
  fsqrt := Z.sqrt;
  fabs := Z.abs;
  fltb := Z.ltb;
  fleb := Z.leb;
  of_Z := fun z => z;
  to_int := Some
|}.

End IntScalar.

(** ** Outcomes and traced computations *)

Inductive exn :=
| ShapeError          (* RuntimeError: size mismatch in a tensor operation *)
| AssertionError
| ConversionError     (* ValueError / OverflowError of [int(x)] *)
| ValueError          (* [range] with a zero step; a value out of range *)
| ZeroDivisionError   (* integer [%] by zero *)
| IndexError.

Inductive outcome (A : Type) :=
| Ok (a : A)
| Raise (e : exn).
Arguments Ok {A} a.
Arguments Raise {A} e.

(** A computation that records the events it performs and may raise. *)
Definition traced (E A : Type) : Type := list E * outcome A.

Definition ret {E A} (a : A) : traced E A := ([], Ok a).
Definition emit {E} (e : E) : traced E unit := ([e], Ok tt).
Definition raise {E A} (e : exn) : traced E A := ([], Raise e).
Definition lift {E A} (o : outcome A) : traced E A := ([], o).

Definition bind {E A B} (m : traced E A) (k : A -> traced E B) : traced E B :=
  match m with
  | (l, Ok a) => let '(l', o) := k a in (l ++ l', o)
  | (l, Raise e) => (l, Raise e)
  end.

Notation "x <- m ;; k" := (bind m (fun x => k))
  (at level 100, m at next level, right associativity).
Notation "m ;;; k" := (bind m (fun _ => k))
  (at level 100, right associativity).

Definition events {E A} (m : traced E A) : list E := fst m.
Definition result {E A} (m : traced E A) : outcome A := snd m.

(** ** proj/common/utils.py *)

(** One-dimensional tensors. *)
Abbreviation vec := list (only parsing).

Section Utils.

Context {F : Type} `{Scalar F}.

Definition zeros_like (b : vec F) : vec F := map (fun _ => fzero) b.

(** Sum of products, accumulated left to right. *)
Definition dotT (a b : vec F) : F :=
  fold_left (fun acc xy => (acc + fst xy * snd xy)%S) (combine a b) fzero.

(** [torch.dot]: both arguments must have the same number of elements. *)
Definition dot {E} (a b : vec F) : traced E F :=
  if Nat.eqb (length a) (length b) then ret (dotT a b) else raise ShapeError.

(** [c * a] for a zero-dimensional [c]. *)
Definition vscale (c : F) (a : vec F) : vec F := map (fmul c) a.
Definition vadd (a b : vec F) : vec F := zip_with fadd a b.
Definition vsub (a b : vec F) : vec F := zip_with fsub a b.

(** *** conjugate_gradient *)

Inductive cg_event :=
| EvMatVec (p : vec F)          (* a call [f_Ax(p)] *)
| EvDiv (num den : F).        (* a scalar division [num / den] *)

Record cg_vars := CgVars {
  cg_p : vec F;
  cg_r : vec F;
  cg_x : vec F;
  cg_rdotr : F
}.

Definition cg_iters_default : nat := 10.
Definition residual_tol_default : F := flit 1 (10 ^ 10).

Section CG.

Variable f_Ax : vec F -> vec F.
Variable residual_tol : F.

Definition call_f (p : vec F) : traced cg_event (vec F) :=
  emit (EvMatVec p) ;;; ret (f_Ax p).

Definition divide (a b : F) : traced cg_event F :=
  emit (EvDiv a b) ;;; ret (a / b)%S.

(** Lines 28-35: the body of the [for] loop up to the tolerance test. *)
Definition cg_body (s : cg_vars) : traced cg_event cg_vars :=
  z <- call_f (cg_p s) ;;
  pz <- dot (cg_p s) z ;;
  v <- divide (cg_rdotr s) pz ;;
  let x := vadd (cg_x s) (vscale v (cg_p s)) in
  let r := vsub (cg_r s) (vscale v z) in
  newrdotr <- dot r r ;;
  mu <- divide newrdotr (cg_rdotr s) ;;
  let p := vadd r (vscale mu (cg_p s)) in
  ret {| cg_p := p; cg_r := r; cg_x := x; cg_rdotr := newrdotr |}.

(** Lines 27-39: [for i in range(cg_iters)] with its [break]. *)
Fixpoint cg_loop (cg_iters : nat) (s : cg_vars) : traced cg_event (vec F) :=
  match cg_iters with
  | O => ret (cg_x s)
  | S n =>
      s' <- cg_body s ;;
      if (cg_rdotr s' <? residual_tol)%S then ret (cg_x s')
      else cg_loop n s'
  end.

Definition conjugate_gradient_traced (b : vec F) (cg_iters : nat)
  : traced cg_event (vec F) :=
  rdotr <- dot b b ;;
  cg_loop cg_iters {| cg_p := b; cg_r := b; cg_x := zeros_like b;
                      cg_rdotr := rdotr |}.

Definition conjugate_gradient (b : vec F) (cg_iters : nat) : outcome (vec F) :=
  result (conjugate_gradient_traced b cg_iters).

(** *** The recurrence as the specification words it *)

Record cg_iterate := CgIt { it_x : vec F; it_r : vec F; it_p : vec F }.

Definition cg_init (b : vec F) : cg_iterate :=
  {| it_x := zeros_like b; it_r := b; it_p := b |}.

Definition cg_recurrence (s : cg_iterate) : cg_iterate :=
  let z := f_Ax (it_p s) in
  let alpha := (dotT (it_r s) (it_r s) / dotT (it_p s) z)%S in
  let x := vadd (it_x s) (vscale alpha (it_p s)) in
  let r_new := vsub (it_r s) (vscale alpha z) in
  let beta := (dotT r_new r_new / dotT (it_r s) (it_r s))%S in
  {| it_x := x; it_r := r_new; it_p := vadd r_new (vscale beta (it_p s)) |}.

Fixpoint cg_iterate_at (b : vec F) (k : nat) : cg_iterate :=
  match k with
  | O => cg_init b
  | S k' => cg_recurrence (cg_iterate_at b k')
  end.

(** The residual test on the iterate reached after [k] iterations. *)
Definition cg_converged (b : vec F) (k : nat) : bool :=
  let s := cg_iterate_at b k in (dotT (it_r s) (it_r s) <? residual_tol)%S.

(** First [k] in [start+1 .. start+budget] that passes the test, or
    [start + budget] when none does. *)
Fixpoint cg_stop_from (b : vec F) (start budget : nat) : nat :=
  match budget with
  | O => start
  | S m => if cg_converged b (S start) then S start
           else cg_stop_from b (S start) m
  end.

Definition cg_stop (b : vec F) (cg_iters : nat) : nat := cg_stop_from b 0 cg_iters.

(** The loop variables that correspond to an iterate: the code caches
    [r . r] in [rdotr]. *)
Definition vars_of (s : cg_iterate) : cg_vars :=
  {| cg_p := it_p s; cg_r := it_r s; cg_x := it_x s;
     cg_rdotr := dotT (it_r s) (it_r s) |}.

(** All three vectors of an iterate have the size of [b]. *)
Definition sized (b : vec F) (s : cg_iterate) : Prop :=
  length (it_x s) = length b /\ length (it_r s) = length b
  /\ length (it_p s) = length b.

End CG.

(** *** Broadcasting arithmetic on one-dimensional tensors *)

(** [a op b] for 1-d tensors: equal sizes combine pointwise, a size-one
    operand is broadcast, anything else is a size mismatch. *)
Definition broadcast (op : F -> F -> F) (a b : vec F) : outcome (vec F) :=
  if Nat.eqb (length a) (length b) then Ok (zip_with op a b)
  else match a, b with
       | _, [y] => Ok (map (fun x => op x y) a)
       | [x], _ => Ok (map (op x) b)
       | _, _ => Raise ShapeError
       end.

(** *** explained_variance_1d *)

Record tensor := Tensor { shape : list nat; data : vec F }.
Definition dim (t : tensor) : nat := length (shape t).

(** [numpy.isclose(a, b)] with its default tolerances. *)
Definition isclose_rtol : F := flit 1 (10 ^ 5).
Definition isclose_atol : F := flit 1 (10 ^ 8).
Definition isclose (a b : F) : bool :=
  (fabs (a - b) <=? isclose_atol + isclose_rtol * fabs b)%S.

Section ExplainedVariance.

(** [Tensor.var()] / [torch.var], a library routine. *)
Variable tvar : vec F -> F.

Definition explained_variance_1d (ypred y : tensor) : outcome F :=
  if negb (Nat.eqb (dim y) 1 && Nat.eqb (dim ypred) 1) then Raise AssertionError
  else
    let vary := tvar (data y) in
    if isclose vary (of_Z 0) then
      if fgtb (tvar (data ypred)) (flit 1 (10 ^ 8)) then Ok (of_Z 0)
      else Ok (of_Z 1)
    else
      match broadcast fsub (data y) (data ypred) with
      | Ok d => Ok (of_Z 1 - tvar d / (vary + flit 1 (10 ^ 8)))%S
      | Raise e => Raise e
      end.

End ExplainedVariance.

(** *** fisher_vector_product *)

(** A tensor that carries a differentiation graph is a scalar expression in
    the entries of the policy's flat parameter vector.  [GDot] is [matmul]
    of a one-dimensional tensor with a vector that has no history. *)
#[local] Set Warnings "-register-all".
Inductive graph :=
| GConst (c : F)
| GParam (i : nat)
| GAdd (a b : graph)
| GSub (a b : graph)
| GMul (a b : graph)
| GDiv (a b : graph)
| GDot (gs : list graph) (v : vec F).

(** The value of a tensor under the parameters [theta]. *)
Fixpoint value (g : graph) (theta : vec F) : F :=
  match g with
  | GConst c => c
  | GParam i => nth i theta fzero
  | GAdd a b => (value a theta + value b theta)%S
  | GSub a b => (value a theta - value b theta)%S
  | GMul a b => (value a theta * value b theta)%S
  | GDiv a b => (value a theta / value b theta)%S
  | GDot gs v => dotT (map (fun g' => value g' theta) gs) v
  end.

(** [torch.autograd.grad] along parameter [i]: the chain rule, node by node.
    Under [create_graph=True] the derivative is a graph again.  Nothing
    flows into a constant, and [matmul] passes the derivative on to its
    first argument, weighted by the second.  The order in which reverse
    mode accumulates the terms of a sum is not modelled. *)
Fixpoint derivative (i : nat) (g : graph) : graph :=
  match g with
  | GConst _ => GConst fzero
  | GParam j => GConst (if Nat.eqb i j then fone else fzero)
  | GAdd a b => GAdd (derivative i a) (derivative i b)
  | GSub a b => GSub (derivative i a) (derivative i b)
  | GMul a b => GAdd (GMul (derivative i a) b) (GMul a (derivative i b))
  | GDiv a b =>
      GDiv (GSub (GMul (derivative i a) b) (GMul a (derivative i b))) (GMul b b)
  | GDot gs v => GDot (map (derivative i) gs) v
  end.

(** [Tensor.detach()] at the current parameters [theta0]: the value, with no
    history. *)
Definition detach (theta0 : vec F) (g : graph) : graph := GConst (value g theta0).

Definition damping_default : F := flit 1 (10 ^ 3).

Section FisherVectorProduct.

Variables Obs Dist : Type.
(** [policy.dists(obs)]: distributions whose flat parameters are graphs in
    the policy's parameters. *)
Variable policy_dists : Obs -> Dist.
Variable flatparam : Dist -> list graph.
Variable pdtype : list graph -> Dist.
(** [kl_divergence], one value per observation, and [Tensor.mean]. *)
Variable kl : Dist -> Dist -> list graph.
Variable mean : list graph -> graph.

(** [flat_grad(y, policy.parameters(), ...)] for a policy of [n] scalar
    parameters. *)
Definition flat_grad (n : nat) (y : graph) : list graph :=
  map (fun i => derivative i y) (seq 0 n).

(** [grad.matmul(v)] on two 1-d tensors of the same size. *)
Definition matmul (a : list graph) (v : vec F) : graph := GDot a v.

Definition fisher_vector_product (v : vec F) (obs : Obs) (theta0 : vec F)
    (damping : F) : outcome (vec F) :=
  let n := length theta0 in
  let dists := policy_dists obs in
  let avg_kl := mean (kl (pdtype (map (detach theta0) (flatparam dists))) dists) in
  let grad := flat_grad n avg_kl in
  if Nat.eqb n (length v) then
    let fvp := map (fun g => value g theta0) (flat_grad n (matmul grad v)) in
    broadcast fadd fvp (map (fun x => x * damping)%S v)
  else Raise ShapeError.

(** **** The Fisher matrix as the specification words it *)

(** Mean KL divergence between the policy's distribution at [theta0], as a
    frozen reference, and the distribution as a function of the
    parameters. *)
Definition mean_kl (obs : Obs) (theta0 : vec F) : graph :=
  mean (kl (pdtype (map (detach theta0) (flatparam (policy_dists obs))))
           (policy_dists obs)).

(** Entry [(i, j)] of the Hessian of [mean_kl] at [theta0]. *)
Definition fisher_entry (obs : Obs) (theta0 : vec F) (i j : nat) : F :=
  value (derivative i (derivative j (mean_kl obs theta0))) theta0.

(** Row [i] of [(F + damping I) v]. *)
Definition damped_fisher_row (obs : Obs) (theta0 v : vec F) (damping : F)
    (i : nat) (vi : F) : F :=
  (dotT (map (fisher_entry obs theta0 i) (seq 0 (length theta0))) v
   + vi * damping)%S.

Definition damped_fisher_times (obs : Obs) (theta0 v : vec F) (damping : F) : vec F :=
  zip_with (damped_fisher_row obs theta0 v damping) (seq 0 (length theta0)) v.

End FisherVectorProduct.

End Utils.

Arguments tensor F : clear implicits.
Arguments cg_event F : clear implicits.
Arguments cg_vars F : clear implicits.
Arguments cg_iterate F : clear implicits.
Arguments graph F : clear implicits.

(** ** Model parameters *)

(** Every trainable tensor lives at a location of one shared store; a model
    ([torch.nn.Module]) is the ordered list of the locations of its
    parameters, as [Module.parameters()] yields them. *)
Definition loc := nat.
Definition params := list loc.

(** Python [range(beg, end, stp)]. *)
Definition py_range (beg end_ stp : Z) : outcome (list Z) :=
  if (stp =? 0)%Z then Raise ValueError
  else
    let n := if (0 <? stp)%Z then ((end_ - beg + stp - 1) / stp)%Z
             else ((beg - end_ - stp - 1) / (- stp))%Z in
    Ok (map (fun k => (beg + Z.of_nat k * stp)%Z) (seq 0 (Z.to_nat n))).

Section Parameters.

Context {F : Type} `{Scalar F}.

Definition param_at (sigma : gmap loc (vec F)) (l : loc) : vec F :=
  default [] (sigma !! l).

(** [torch.nn.utils.parameters_to_vector]. *)
Definition parameters_to_vector (ps : params) (sigma : gmap loc (vec F)) : vec F :=
  concat (map (param_at sigma) ps).

(** [torch.nn.utils.vector_to_parameters]: each parameter in turn receives
    the next [numel] entries of the vector, which must be there. *)
Fixpoint vector_to_parameters_from (pointer : nat) (v : vec F) (ps : params)
    (sigma : gmap loc (vec F)) : outcome (gmap loc (vec F)) :=
  match ps with
  | [] => Ok sigma
  | l :: ps' =>
      let num_param := length (param_at sigma l) in
      let chunk := take num_param (drop pointer v) in
      if Nat.eqb (length chunk) num_param
      then vector_to_parameters_from (pointer + num_param) v ps' (<[l := chunk]> sigma)
      else Raise ShapeError
  end.

Definition vector_to_parameters (v : vec F) (ps : params)
    (sigma : gmap loc (vec F)) : outcome (gmap loc (vec F)) :=
  vector_to_parameters_from 0 v ps sigma.

(** Number of scalars in the parameters of a model. *)
Definition numel (ps : params) (sigma : gmap loc (vec F)) : nat :=
  length (parameters_to_vector ps sigma).

End Parameters.

(** ** The test of SnapshotSaver.save_state *)

(** [proj/utils/saver.py], line 37: [index == 1 or index % self.save_interval
    == 0], whether the call writes a snapshot.  The remainder is only taken
    for an index other than 1, and raises for an interval of zero. *)
Definition save_due (interval index : Z) : outcome bool :=
  if (index =? 1)%Z then Ok true
  else if (interval =? 0)%Z then Raise ZeroDivisionError
  else Ok (index mod interval =? 0)%Z.

(** ** proj/algorithms/natural.py *)

(** What [natural] consumes from modules that are not part of this
    development: the sample collector, [compute_pg_vars] and
    [flatten_trajs], automatic differentiation of the policy loss, the
    solver and Fisher-vector product of [proj.common.hf_util], the Adam
    step of the value function.  [World] is the hidden state of the
    environments and of the random number generators. *)
Class NaturalCollab (F : Type) := {
  NWorld : Type;
  NTraj : Type;
  NBatch : Type;
  NObs : Type;
  NOpt : Type;
  nc_collect : vec F -> NWorld -> NTraj * NWorld;
  nc_compute_pg_vars : NTraj -> vec F -> F -> F -> outcome NBatch;
  nc_all_obs : NBatch -> NObs;
  nc_len_obs : NObs -> Z;
  nc_subsample : Z -> NObs -> NWorld -> NObs * NWorld;
  nc_policy_gradient : vec F -> NBatch -> vec F;
  nc_conjugate_gradient : (vec F -> vec F) -> vec F -> outcome (vec F);
  nc_fisher_vec_prod : vec F -> NObs -> vec F -> vec F;
  nc_val_step : vec F -> NOpt -> NBatch -> vec F * NOpt
}.

Section Natural.

Context {F : Type} `{Scalar F} `{NaturalCollab F}.

Record natural_config := NaturalConfig {
  nat_total_steps : Z;
  nat_steps : Z;
  nat_n_envs : Z;
  nat_gamma : F;
  nat_gaelam : F;
  nat_kl_frac : F;
  nat_delta : F;
  nat_val_iters : nat;
  nat_save_interval : Z       (* [save_interval] of [saver_kwargs] *)
}.

Record natural_state := NaturalState {
  ns_store : gmap loc (vec F);
  ns_val_optim : NOpt;
  ns_world : NWorld
}.

Inductive natural_event :=
| NCollect
| NComputePgVars (gamma gaelam : F)
| NSolve (g : vec F)
| NPolicyUpdate (new_params : vec F)
| NValueStep
| NSaveState (index : Z).

Variable cfg : natural_config.
(** The models built at lines 60-61. *)
Variables policy val_fn : params.

(** Line 101. *)
Definition step_scale (g_dot_x : F) : F :=
  fsqrt (of_Z 2 * nat_delta cfg / (g_dot_x + flit 1 (10 ^ 8)))%S.

(** Lines 89-104: policy gradient, truncated natural gradient, scaled step. *)
Definition natural_step (batch : NBatch) (subsamp_obs : NObs)
    (sigma : gmap loc (vec F)) : traced natural_event (gmap loc (vec F)) :=
  let theta := parameters_to_vector policy sigma in
  let pol_grad := nc_policy_gradient theta batch in
  let fvp := fun v => nc_fisher_vec_prod v subsamp_obs theta in
  emit (NSolve pol_grad) ;;;
  descent_direction <- lift (nc_conjugate_gradient fvp pol_grad) ;;
  g_dot_x <- dot pol_grad descent_direction ;;
  let scale := step_scale g_dot_x in
  let descent_step := map (fun d => d * scale)%S descent_direction in
  new_params <- lift (broadcast fsub (parameters_to_vector policy sigma) descent_step) ;;
  emit (NPolicyUpdate new_params) ;;;
  lift (vector_to_parameters new_params policy sigma).

(** Lines 107-110: one Adam step on the value function. *)
Definition value_step (batch : NBatch) (s : natural_state)
    : traced natural_event natural_state :=
  let '(w', opt') := nc_val_step (parameters_to_vector val_fn (ns_store s))
                                 (ns_val_optim s) batch in
  emit NValueStep ;;;
  sigma' <- lift (vector_to_parameters w' val_fn (ns_store s)) ;;
  ret {| ns_store := sigma'; ns_val_optim := opt'; ns_world := ns_world s |}.

Fixpoint value_regression (iters : nat) (batch : NBatch) (s : natural_state)
    : traced natural_event natural_state :=
  match iters with
  | O => ret s
  | S k => s' <- value_step batch s ;; value_regression k batch s'
  end.

(** Lines 82-87. *)
Definition subsample (all_obs : NObs) (w : NWorld) : outcome (NObs * NWorld) :=
  if (nat_kl_frac cfg <? of_Z 1)%S then
    match to_int (nat_kl_frac cfg * of_Z (nc_len_obs all_obs))%S with
    | Some n_samples => Ok (nc_subsample n_samples all_obs w)
    | None => Raise ConversionError
    end
  else Ok (all_obs, w).

(** Lines 69-130: one pass of the main loop; the call of [save_state] is
    recorded, then its test may raise. *)
Definition natural_iteration (samples : Z) (s : natural_state)
    : traced natural_event natural_state :=
  let stp := (nat_steps cfg * nat_n_envs cfg)%Z in
  emit NCollect ;;;
  let '(trajs, w1) := nc_collect (parameters_to_vector policy (ns_store s)) (ns_world s) in
  emit (NComputePgVars (nat_gamma cfg) (nat_gaelam cfg)) ;;;
  batch <- lift (nc_compute_pg_vars trajs (parameters_to_vector val_fn (ns_store s))
                   (nat_gamma cfg) (nat_gaelam cfg)) ;;
  sub <- lift (subsample (nc_all_obs batch) w1) ;;
  let '(subsamp_obs, w2) := sub in
  sigma1 <- natural_step batch subsamp_obs (ns_store s) ;;
  s2 <- value_regression (nat_val_iters cfg) batch
          {| ns_store := sigma1; ns_val_optim := ns_val_optim s; ns_world := w2 |} ;;
  emit (NSaveState (samples / stp)) ;;;
  lift (save_due (nat_save_interval cfg) (samples / stp)) ;;;
  ret s2.

Fixpoint natural_loop (samples : list Z) (s : natural_state)
    : traced natural_event natural_state :=
  match samples with
  | [] => ret s
  | k :: rest => s' <- natural_iteration k s ;; natural_loop rest s'
  end.

(** Lines 66-68 and 132. *)
Definition natural (s : natural_state) : traced natural_event natural_state :=
  let stp := (nat_steps cfg * nat_n_envs cfg)%Z in
  samples <- lift (py_range stp (nat_total_steps cfg + stp) stp) ;;
  natural_loop samples s.

End Natural.

Arguments natural_config F : clear implicits.

(** ** proj/algorithms/ddpg.py *)

(** A transition as [replay.store] receives it; the done flag is already a
    float ([dones.astype("f")]). *)
Record transition (F Obs Act : Type) := Transition {
  tr_ob1 : Obs;
  tr_act : Act;
  tr_rew : F;
  tr_ob2 : Obs;
  tr_done : F
}.
Arguments Transition {F Obs Act}.
Arguments tr_ob1 {F Obs Act}.
Arguments tr_act {F Obs Act}.
Arguments tr_rew {F Obs Act}.
Arguments tr_ob2 {F Obs Act}.
Arguments tr_done {F Obs Act}.

(** Modelled from the spec: [proj.common.sampling.ReplayBuffer], whose source
    is not part of this development.  A fixed-capacity ring: slots fill in
    order, and once [size = capacity] each store overwrites the oldest slot.
    A capacity that is not positive is refused when the buffer is built; the
    spec names no error class, [ValueError] stands for it. *)
Record ReplayBuffer (T : Type) := Replay {
  rb_capacity : nat;
  rb_slots : list T;
  rb_cursor : nat
}.
Arguments Replay {T}.
Arguments rb_capacity {T}.
Arguments rb_slots {T}.
Arguments rb_cursor {T}.

Definition rb_empty {T} (capacity : nat) : ReplayBuffer T :=
  {| rb_capacity := capacity; rb_slots := []; rb_cursor := 0 |}.

Definition rb_new {T} (capacity : Z) : outcome (ReplayBuffer T) :=
  if (0 <? capacity)%Z then Ok (rb_empty (Z.to_nat capacity))
  else Raise ValueError.

Definition rb_size {T} (rb : ReplayBuffer T) : nat := length (rb_slots rb).

Definition rb_store {T} (rb : ReplayBuffer T) (t : T) : ReplayBuffer T :=
  if Nat.ltb (rb_size rb) (rb_capacity rb) then
    {| rb_capacity := rb_capacity rb;
       rb_slots := rb_slots rb ++ [t];
       rb_cursor := (rb_cursor rb + 1) mod rb_capacity rb |}
  else
    {| rb_capacity := rb_capacity rb;
       rb_slots := <[rb_cursor rb := t]> (rb_slots rb);
       rb_cursor := (rb_cursor rb + 1) mod rb_capacity rb |}.

(** What [ddpg] consumes from outside: the vectorised environment, the two
    exploration strategies, the networks with their Adam steps,
    [update_polyak], the buffer's random minibatch, the test rollouts. *)
Class DdpgCollab (F : Type) := {
  DWorld : Type;
  DObs : Type;
  DAct : Type;
  DNet : Type;
  DOpt : Type;
  dc_env_step : list DAct -> DWorld -> (list DObs * list F * list bool) * DWorld;
  dc_rand_uniform_actions : DWorld -> list DAct * DWorld;
  dc_noisy_policy_actions : DNet -> F -> list DObs -> DWorld -> list DAct * DWorld;
  dc_sample : Z -> ReplayBuffer (transition F DObs DAct) -> DWorld
              -> list (transition F DObs DAct) * DWorld;
  dc_actor : DNet -> list DObs -> list DAct;
  dc_critic : DNet -> list DObs -> list DAct -> vec F;
  dc_critic_step : DNet -> DOpt -> list (transition F DObs DAct) -> vec F -> DNet * DOpt;
  dc_actor_step : DNet -> DOpt -> DNet -> list DObs -> DNet * DOpt;
  dc_update_polyak : DNet -> DNet -> F -> DNet;
  dc_test_policy : DNet -> DWorld -> DWorld
}.

Section Ddpg.

Context {F : Type} `{Scalar F} `{DdpgCollab F}.

Record ddpg_config := DdpgConfig {
  total_steps : Z;
  gamma : F;
  replay_size : Z;
  polyak : F;
  start_steps : Z;
  epoch : Z;
  mb_size : Z;
  act_noise : F;
  max_ep_length : Z;
  updates_per_step : F;
  ddpg_save_interval : Z      (* [save_interval] of [saver_kwargs] *)
}.

Record ddpg_state := DdpgState {
  obs1 : list DObs;
  ep_length : Z;
  replay : ReplayBuffer (transition F DObs DAct);
  policy : DNet;
  q_func : DNet;
  pi_targ : DNet;
  qf_targ : DNet;
  pi_optim : DOpt;
  qf_optim : DOpt;
  world : DWorld
}.

Inductive target_net := PiTarg | QfTarg.

Inductive ddpg_event :=
| EvEnvStep
| EvStore (env : nat) (t : transition F DObs DAct)
| EvSample (n : Z)
| EvCriticStep (targs : vec F)
| EvActorStep
| EvPolyak (which : target_net)
| EvTestPolicy
| EvSaveState (index : Z).

Variable cfg : ddpg_config.

Definition of_bool (b : bool) : F := if b then of_Z 1 else of_Z 0.

(** Line 113: [dones[0] = False if ep_length == max_ep_length else dones[0]]. *)
Definition mask_cutoff (ep_len : Z) (dones : list bool) : outcome (list bool) :=
  match dones with
  | [] => Raise IndexError
  | d0 :: rest => Ok ((if (ep_len =? max_ep_length cfg)%Z then false else d0) :: rest)
  end.

(** Lines 115-117: one [replay.store] per parallel environment. *)
Fixpoint store_all (i : nat) (ts : list (transition F DObs DAct))
    (rb : ReplayBuffer (transition F DObs DAct))
    : traced ddpg_event (ReplayBuffer (transition F DObs DAct)) :=
  match ts with
  | [] => ret rb
  | t :: ts' => emit (EvStore i t) ;;; store_all (S i) ts' (rb_store rb t)
  end.

Fixpoint zip5 (o1 : list DObs) (a : list DAct) (r : list F) (o2 : list DObs)
    (d : list F) : list (transition F DObs DAct) :=
  match o1, a, r, o2, d with
  | x1 :: o1', x2 :: a', x3 :: r', x4 :: o2', x5 :: d' =>
      Transition x1 x2 x3 x4 x5 :: zip5 o1' a' r' o2' d'
  | _, _, _, _, _ => []
  end.

(** Line 124: [rew_ + gamma * (1 - done_) * qf_targ(ob_2, pi_targ(ob_2))]. *)
Definition td_target (rew done q : F) : F :=
  (rew + gamma cfg * (of_Z 1 - done) * q)%S.

Fixpoint zip3_with (f : F -> F -> F -> F) (a b c : vec F) : vec F :=
  match a, b, c with
  | x :: a', y :: b', z :: c' => f x y z :: zip3_with f a' b' c'
  | _, _, _ => []
  end.

(** Lines 122-138: one learning substep. *)
Definition learn_substep (s : ddpg_state) : traced ddpg_event ddpg_state :=
  let '(batch, w1) := dc_sample (mb_size cfg) (replay s) (world s) in
  emit (EvSample (mb_size cfg)) ;;;
  let ob_2 := map tr_ob2 batch in
  let targs := zip3_with td_target (map tr_rew batch) (map tr_done batch)
                 (dc_critic (qf_targ s) ob_2 (dc_actor (pi_targ s) ob_2)) in
  let '(q_func', qf_optim') := dc_critic_step (q_func s) (qf_optim s) batch targs in
  emit (EvCriticStep targs) ;;;
  let '(policy', pi_optim') :=
    dc_actor_step (policy s) (pi_optim s) q_func' (map tr_ob1 batch) in
  emit EvActorStep ;;;
  let pi_targ' := dc_update_polyak policy' (pi_targ s) (polyak cfg) in
  emit (EvPolyak PiTarg) ;;;
  let qf_targ' := dc_update_polyak q_func' (qf_targ s) (polyak cfg) in
  emit (EvPolyak QfTarg) ;;;
  ret {| obs1 := obs1 s; ep_length := ep_length s; replay := replay s;
         policy := policy'; q_func := q_func'; pi_targ := pi_targ';
         qf_targ := qf_targ'; pi_optim := pi_optim'; qf_optim := qf_optim';
         world := w1 |}.

Fixpoint learn_loop (n : nat) (s : ddpg_state) : traced ddpg_event ddpg_state :=
  match n with
  | O => ret s
  | S k => s' <- learn_substep s ;; learn_loop k s'
  end.

(** Line 121: [range(int(ep_length * updates_per_step))]. *)
Definition substep_count (ep_len : Z) : outcome nat :=
  match to_int (of_Z ep_len * updates_per_step cfg)%S with
  | Some n => Ok (Z.to_nat n)
  | None => Raise ConversionError
  end.

Definition with_ep_length (s : ddpg_state) (n : Z) : ddpg_state :=
  {| obs1 := obs1 s; ep_length := n; replay := replay s; policy := policy s;
     q_func := q_func s; pi_targ := pi_targ s; qf_targ := qf_targ s;
     pi_optim := pi_optim s; qf_optim := qf_optim s; world := world s |}.

(** Lines 120-145. *)
Definition learn_burst (done0 : bool) (s : ddpg_state)
    : traced ddpg_event ddpg_state :=
  if (done0 || (ep_length s =? max_ep_length cfg)%Z)
     && (mb_size cfg <=? Z.of_nat (rb_size (replay s)))%Z then
    n <- lift (substep_count (ep_length s)) ;;
    s' <- learn_loop n s ;;
    ret (with_ep_length s' 0%Z)
  else ret s.

(** Lines 147-165; the call of [save_state] is recorded, then its test may
    raise. *)
Definition epoch_end (samples : Z) (s : ddpg_state)
    : traced ddpg_event ddpg_state :=
  if (epoch cfg =? 0)%Z then raise ZeroDivisionError
  else if (samples mod epoch cfg =? 0)%Z then
    emit EvTestPolicy ;;;
    emit (EvSaveState (samples / epoch cfg)) ;;;
    lift (save_due (ddpg_save_interval cfg) (samples / epoch cfg)) ;;;
    ret {| obs1 := obs1 s; ep_length := ep_length s; replay := replay s;
           policy := policy s; q_func := q_func s; pi_targ := pi_targ s;
           qf_targ := qf_targ s; pi_optim := pi_optim s;
           qf_optim := qf_optim s;
           world := dc_test_policy (policy s) (world s) |}
  else ret s.

(** Lines 105-165: one pass of the main loop. *)
Definition ddpg_step (samples : Z) (s : ddpg_state)
    : traced ddpg_event ddpg_state :=
  let '(acts, w1) :=
    if (samples <=? start_steps cfg)%Z then dc_rand_uniform_actions (world s)
    else dc_noisy_policy_actions (policy s) (act_noise cfg) (obs1 s) (world s) in
  let '(obs2, rews, dones, w2) := dc_env_step acts w1 in
  emit EvEnvStep ;;;
  let ep_len := (ep_length s + 1)%Z in
  dones' <- lift (mask_cutoff ep_len dones) ;;
  rb <- store_all 0 (zip5 (obs1 s) acts rews obs2 (map of_bool dones')) (replay s) ;;
  let s1 := {| obs1 := obs2; ep_length := ep_len; replay := rb;
               policy := policy s; q_func := q_func s; pi_targ := pi_targ s;
               qf_targ := qf_targ s; pi_optim := pi_optim s;
               qf_optim := qf_optim s; world := w2 |} in
  s2 <- learn_burst (hd false dones') s1 ;;
  epoch_end samples s2.

Fixpoint ddpg_loop (samples : list Z) (s : ddpg_state)
    : traced ddpg_event ddpg_state :=
  match samples with
  | [] => ret s
  | k :: rest => s' <- ddpg_step k s ;; ddpg_loop rest s'
  end.

(** Lines 47-104: the buffer (line 47), the target copies, the first
    snapshot (line 61; index 0, so its test takes the remainder by the save
    interval), the first test (line 87), then the loop over
    [range(1, total_steps + 1)]. *)
Definition ddpg (reset_obs : list DObs) (policy0 q_func0 : DNet)
    (pi_optim0 qf_optim0 : DOpt) (w : DWorld) : traced ddpg_event ddpg_state :=
  rb <- lift (rb_new (replay_size cfg)) ;;
  emit (EvSaveState 0) ;;;
  lift (save_due (ddpg_save_interval cfg) 0) ;;;
  emit EvTestPolicy ;;;
  let s0 := {| obs1 := reset_obs; ep_length := 0;
               replay := rb;
               policy := policy0; q_func := q_func0;
               pi_targ := policy0; qf_targ := q_func0;
               pi_optim := pi_optim0; qf_optim := qf_optim0;
               world := dc_test_policy policy0 w |} in
  samples <- lift (py_range 1 (total_steps cfg + 1) 1) ;;
  ddpg_loop samples s0.

(** The same configuration with another discount. *)
Definition with_gamma (c : ddpg_config) (g : F) : ddpg_config :=
  {| total_steps := total_steps c; gamma := g; replay_size := replay_size c;
     polyak := polyak c; start_steps := start_steps c; epoch := epoch c;
     mb_size := mb_size c; act_noise := act_noise c;
     max_ep_length := max_ep_length c; updates_per_step := updates_per_step c;
     ddpg_save_interval := ddpg_save_interval c |}.

(** **** Reading a trace *)

Inductive ev_kind :=
| KEnvStep | KStore | KSample | KCriticStep | KActorStep
| KPolyak (which : target_net) | KTestPolicy | KSaveState.

Definition kind_of (e : ddpg_event) : ev_kind :=
  match e with
  | EvEnvStep => KEnvStep
  | EvStore _ _ => KStore
  | EvSample _ => KSample
  | EvCriticStep _ => KCriticStep
  | EvActorStep => KActorStep
  | EvPolyak w => KPolyak w
  | EvTestPolicy => KTestPolicy
  | EvSaveState _ => KSaveState
  end.

(** One learning substep: a minibatch, a critic step, an actor step, the two
    target updates. *)
Definition substep_kinds : list ev_kind :=
  [KSample; KCriticStep; KActorStep; KPolyak PiTarg; KPolyak QfTarg].

(** The done flags handed to [replay.store], in order. *)
Definition stored_dones (evs : list ddpg_event) : list F :=
  omap (fun e => match e with EvStore _ t => Some (tr_done t) | _ => None end) evs.

(** The regression targets of the critic steps, in order. *)
Definition critic_targets (evs : list ddpg_event) : list (vec F) :=
  omap (fun e => match e with EvCriticStep t => Some t | _ => None end) evs.

Definition count_samples (evs : list ddpg_event) : nat :=
  length (omap (fun e => match e with EvSample n => Some n | _ => None end) evs).

End Ddpg.

Arguments ddpg_config F : clear implicits.

(** ** Reading the traces *)

Section TraceReaders.

Context {F : Type} `{Scalar F}.

(** The arguments of the calls [f_Ax(p)], and the divisions, in order. *)
Definition matvec_calls (evs : list (cg_event F)) : list (vec F) :=
  omap (fun e => match e with EvMatVec p => Some p | _ => None end) evs.

Definition divisions (evs : list (cg_event F)) : list (F * F) :=
  omap (fun e => match e with EvDiv a b => Some (a, b) | _ => None end) evs.

End TraceReaders.

Inductive natural_kind :=
| NKCollect | NKComputePgVars | NKSolve | NKPolicyUpdate | NKValueStep | NKSaveState.

Section NaturalReaders.

Context {F : Type}.

Definition natural_kind_of (e : @natural_event F) : natural_kind :=
  match e with
  | NCollect => NKCollect
  | NComputePgVars _ _ => NKComputePgVars
  | NSolve _ => NKSolve
  | NPolicyUpdate _ => NKPolicyUpdate
  | NValueStep => NKValueStep
  | NSaveState _ => NKSaveState
  end.

(** The indices handed to [saver.save_state], in order. *)
Definition natural_save_indices (evs : list (@natural_event F)) : list Z :=
  omap (fun e => match e with NSaveState i => Some i | _ => None end) evs.

End NaturalReaders.

Section DdpgReaders.

Context {F : Type} `{Scalar F} `{DdpgCollab F}.

(** The calls [vec_env.step] of a trace. *)
Definition env_steps (evs : list ddpg_event) : list unit :=
  omap (fun e => match e with EvEnvStep => Some tt | _ => None end) evs.

End DdpgReaders.

(** ** set_global_seeds *)

Inductive seed_event :=
| DrawRandint (lo hi : Z)     (* [random.randint(lo, hi)] *)
| SeedNumpy (seed : Z)
| SeedRandom (seed : Z)
| SeedTorch (seed : Z).

(** [numpy.random.seed] takes a seed between 0 and [2**32 - 1] and raises
    [ValueError] on any other integer. *)
Definition np_random_seed (seed : Z) : traced seed_event unit :=
  if ((0 <=? seed) && (seed <? 2 ^ 32))%Z then emit (SeedNumpy seed)
  else raise ValueError.

(** [random.seed] takes any integer; [torch.manual_seed] takes every seed
    that [numpy.random.seed] has let through. *)
Definition random_seed (seed : Z) : traced seed_event unit := emit (SeedRandom seed).
Definition torch_manual_seed (seed : Z) : traced seed_event unit := emit (SeedTorch seed).

(** Lines 8-14.  [randint] is the value [random.randint(0, 2**32)] would
    return, between its two bounds, both included. *)
Definition set_global_seeds (randint : Z) (seed : option Z) : traced seed_event Z :=
  seed <- match seed with
          | None => emit (DrawRandint 0 (2 ^ 32)) ;;; ret randint
          | Some s => ret s
          end ;;
  np_random_seed seed ;;;
  random_seed seed ;;;
  torch_manual_seed seed ;;;
  ret seed.

(** ** proj/utils/saver.py *)

Inductive saver_exn :=
| FileNotFoundError
| LoadError           (* what [torch.load] raises other than [EOFError] *)
| Builtin (e : exn).

Inductive io_outcome (A : Type) :=
| Done (a : A)
| Failed (e : saver_exn).
Arguments Done {A} a.
Arguments Failed {A} e.

(** ["%d" % index], and [int(s)] on plain decimal strings: digits after an
    optional minus sign.  Any other string counts as malformed here; Python
    also reads a leading plus sign, blanks around the number and underscores
    between digits, which no name written by the saver has. *)
Definition string_of_Z (z : Z) : string := NilZero.string_of_int (Z.to_int z).
Definition Z_of_string (s : string) : option Z :=
  option_map Z.of_int (NilZero.int_of_string s).

(** [s.split(".")[0]]. *)
Fixpoint before_dot (s : string) : string :=
  match s with
  | EmptyString => EmptyString
  | String c s' => if Ascii.eqb c "."%char then EmptyString else String c (before_dot s')
  end.

(** The key of [sorted] at line 60: [int(x.split(".")[0])]. *)
Definition snapshot_index (name : string) : option Z := Z_of_string (before_dot name).

(** [sorted(l, key=...)]: ascending and stable. *)
Fixpoint insert_by_key (x : Z * string) (l : list (Z * string)) : list (Z * string) :=
  match l with
  | [] => [x]
  | y :: l' => if (fst x <=? fst y)%Z then x :: l else y :: insert_by_key x l'
  end.

Definition sorted_by_key (l : list (Z * string)) : list (Z * string) :=
  foldr insert_by_key [] l.

(** The keys of all names, or nothing when one of them is not a number. *)
Fixpoint keyed (names : list string) : option (list (Z * string)) :=
  match names with
  | [] => Some []
  | n :: rest =>
      match snapshot_index n, keyed rest with
      | Some k, Some l => Some ((k, n) :: l)
      | _, _ => None
      end
  end.

Section Saver.

Variables Config State : Type.

(** A snapshot file, by what [torch.load] with its default arguments makes
    of it: a pair, an [EOFError], or any other exception ([UnpicklingError],
    [RuntimeError], ...). *)
Inductive snapshot_file :=
| Loadable (content : Config * State)
| Truncated
| Unreadable.

(** The file that [torch.save(state, f, pickle_module=cpkl,
    pickle_protocol=-1)] leaves.  Whether [torch.load] reads it back is a
    matter of the two libraries and of their versions. *)
Variable saved_as : Config * State -> snapshot_file.

(** The snapshots folder of a saver: absent, or its files by name. *)
Definition folder := option (gmap string snapshot_file).

Record SnapshotSaver := Saver {
  save_interval : Z;
  config : Config;
  latest_only : bool
}.

(** Lines 11-24.  [listing] is what [os.listdir] returns for the folder. *)
Definition SnapshotSaver_init (fd : folder) (listing : list string) (cfg : Config)
    (interval : Z) (latest : option bool) : SnapshotSaver :=
  let latest_only :=
    match latest with
    | Some b => b
    | None =>
        match fd with
        | Some files =>
            if bool_decide (is_Some (files !! "latest.pkl"%string)) then true
            else if Nat.ltb 0 (length listing) then false
            else true
        | None => true
        end
    end in
  {| save_interval := interval; config := cfg; latest_only := latest_only |}.

(** Lines 30-34, as a name inside the snapshots folder. *)
Definition get_snapshot_path (sv : SnapshotSaver) (index : Z) : string :=
  if latest_only sv then "latest.pkl"%string
  else (string_of_Z index ++ ".pkl")%string.

(** Lines 36-42. *)
Definition save_state (sv : SnapshotSaver) (index : Z) (state : State) (fd : folder)
    : io_outcome folder :=
  match save_due (save_interval sv) index with
  | Raise e => Failed (Builtin e)
  | Ok true =>
      Done (Some (<[get_snapshot_path sv index := saved_as (config sv, state)]>
                    (default ∅ fd)))
  | Ok false => Done fd
  end.

(** [torch.load] inside [try ... except EOFError: pass]: the pair, [None]
    for the [EOFError] that is swallowed, any other exception let
    through. *)
Definition load_or_pass (f : snapshot_file) : io_outcome (option (Config * State)) :=
  match f with
  | Loadable c => Done (Some c)
  | Truncated => Done None
  | Unreadable => Failed LoadError
  end.

(** [open(path, "rb")] followed by [torch.load]. *)
Definition open_and_load (fd : folder) (name : string)
    : io_outcome (option (Config * State)) :=
  match fd with
  | None => Failed FileNotFoundError
  | Some files =>
      match files !! name with
      | None => Failed FileNotFoundError
      | Some f => load_or_pass f
      end
  end.

(** Lines 63-69: the first file that unpickles. *)
Fixpoint load_first (fd : folder) (names : list string)
    : io_outcome (option (Config * State)) :=
  match names with
  | [] => Done None
  | n :: rest =>
      match open_and_load fd n with
      | Done (Some c) => Done (Some c)
      | Done None => load_first fd rest
      | Failed e => Failed e
      end
  end.

(** Lines 44-69. *)
Definition get_state (sv : SnapshotSaver) (index : option Z) (fd : folder)
    (listing : list string) : io_outcome (option (Config * State)) :=
  if latest_only sv then open_and_load fd (get_snapshot_path sv 0)
  else
    match index with
    | Some i => open_and_load fd (get_snapshot_path sv i)
    | None =>
        match fd with
        | None => Failed FileNotFoundError
        | Some _ =>
            match keyed listing with
            | None => Failed (Builtin ValueError)
            | Some l => load_first fd (map snd (rev (sorted_by_key l)))
            end
        end
    end.

End Saver.

Arguments Loadable {Config State} content.
Arguments Truncated {Config State}.
Arguments Unreadable {Config State}.
Arguments Saver {Config} save_interval config latest_only.
Arguments save_interval {Config} s.
Arguments config {Config} s.
Arguments latest_only {Config} s.
Arguments SnapshotSaver_init {Config State} fd listing cfg interval latest.
Arguments get_snapshot_path {Config} sv index.
Arguments save_state {Config State} saved_as sv index state fd.
Arguments load_or_pass {Config State} f.
Arguments open_and_load {Config State} fd name.
Arguments load_first {Config State} fd names.
Arguments get_state {Config State} sv index fd listing.

(** ** Concrete inputs *)

Module Fixtures.

Import Float64.

(** [p |-> diag(d) p]. *)
Definition diag (d : vec float) (p : vec float) : vec float := zip_with fmul d p.

Definition b123 : vec float := [1; 2; 3]%float.

(** A target whose squared norm, [1e-12], is below the default tolerance. *)
Definition tiny_b : vec float := [flit 1 1000000].

(** The product [p |-> (F + damping I) p] for the zero matrix [F], which is
    singular, and the default damping. *)
Definition damped_zero (p : vec float) : vec float :=
  vadd (zeros_like p) (map (fun x => x * damping_default)%S p).

(** [Tensor.var()] with its default Bessel correction, computed in two
    passes. *)
Definition fsum (a : vec float) : float := fold_left fadd a fzero.
Definition fmean (a : vec float) : float := (fsum a / of_Z (Z.of_nat (length a)))%S.
Definition var_unbiased (a : vec float) : float :=
  let m := fmean a in
  (fsum (map (fun x => (x - m) * (x - m)) a) / of_Z (Z.of_nat (length a) - 1))%S.

Definition tensor1 (a : vec float) : tensor float :=
  {| shape := [length a]; data := a |}.

(** A two-tensor policy at locations 0 and 1, a value function at 2. *)
Definition toy_policy : params := [0; 1].
Definition toy_val_fn : params := [2].
Definition toy_store : gmap loc (vec float) :=
  <[0 := [1; 2]%float]> (<[1 := [3]%float]> (<[2 := [5; 6]%float]> ∅)).

(** Collaborators of [natural] small enough to run: the loss has gradient
    [2 theta], the curvature is the damped identity, the solver is the one of
    [proj/common/utils.py], an Adam step halves the value parameters. *)
#[export] Instance toy_natural : NaturalCollab float := {|
  NWorld := unit;
  NTraj := unit;
  NBatch := unit;
  NObs := unit;
  NOpt := unit;
  nc_collect := fun _ w => (tt, w);
  nc_compute_pg_vars := fun _ _ _ _ => Ok tt;
  nc_all_obs := fun _ => tt;
  nc_len_obs := fun _ => 3%Z;
  nc_subsample := fun _ o w => (o, w);
  nc_policy_gradient := fun theta _ => map (fun x => x * of_Z 2)%S theta;
  nc_conjugate_gradient := fun f b =>
    conjugate_gradient f residual_tol_default b cg_iters_default;
  nc_fisher_vec_prod := fun v _ _ => vadd v (map (fun x => x * damping_default)%S v);
  nc_val_step := fun w opt _ => (map (fun x => x * flit 1 2)%S w, opt)
|}.

Definition toy_batch : @NBatch float toy_natural := tt.
Definition toy_obs : @NObs float toy_natural := tt.

Definition toy_natural_config : natural_config float :=
  {| nat_total_steps := 4; nat_steps := 2; nat_n_envs := 1;
     nat_gamma := flit 99 100; nat_gaelam := flit 97 100;
     nat_kl_frac := of_Z 1; nat_delta := flit 1 100; nat_val_iters := 2;
     nat_save_interval := 10 |}.

Definition toy_natural_state : @natural_state float toy_natural :=
  {| ns_store := toy_store; ns_val_optim := tt; ns_world := tt |}.

(** The same collaborators with a solver that returns one number. *)
Definition short_natural : NaturalCollab float := {|
  NWorld := unit;
  NTraj := unit;
  NBatch := unit;
  NObs := unit;
  NOpt := unit;
  nc_collect := fun _ w => (tt, w);
  nc_compute_pg_vars := fun _ _ _ _ => Ok tt;
  nc_all_obs := fun _ => tt;
  nc_len_obs := fun _ => 3%Z;
  nc_subsample := fun _ o w => (o, w);
  nc_policy_gradient := fun theta _ => map (fun x => x * of_Z 2)%S theta;
  nc_conjugate_gradient := fun _ _ => Ok [1%float];
  nc_fisher_vec_prod := fun v _ _ => v;
  nc_val_step := fun w opt _ => (w, opt)
|}.
Definition short_batch : @NBatch float short_natural := tt.
Definition short_obs : @NObs float short_natural := tt.

(** A Gaussian policy of unit variance whose mean is the product of its two
    parameters, whatever the observation; the divergence between two such
    distributions is half the squared distance of their means. *)
Definition product_mean (_ : unit) : list (graph float) :=
  [GMul (GParam 0) (GParam 1)].
Definition gaussian_kl (p q : list (graph float)) : list (graph float) :=
  zip_with (fun a c => GDiv (GMul (GSub a c) (GSub a c)) (GConst 2%float)) p q.
Definition graph_mean (l : list (graph float)) : graph float :=
  GDiv (fold_left GAdd l (GConst 0%float)) (GConst (of_Z (Z.of_nat (length l)))).

(** Collaborators of [ddpg] small enough to run: one environment whose
    episodes end at every third step with reward 1, a critic that is a single
    number and jumps to the first target of the minibatch, a minibatch made
    of the oldest slots. *)
#[export] Instance toy_ddpg : DdpgCollab float := {|
  DWorld := nat;
  DObs := nat;
  DAct := nat;
  DNet := float;
  DOpt := unit;
  dc_env_step := fun _ w => (([S w], [1%float], [Nat.eqb (S w mod 3) 0]), S w);
  dc_rand_uniform_actions := fun w => ([0], w);
  dc_noisy_policy_actions := fun _ _ _ w => ([1], w);
  dc_sample := fun n rb w => (take (Z.to_nat n) (rb_slots rb), w);
  dc_actor := fun _ obs => map (fun _ => 0) obs;
  dc_critic := fun net obs _ => map (fun _ => net) obs;
  dc_critic_step := fun net opt _ targs => (hd net targs, opt);
  dc_actor_step := fun net opt _ _ => (net, opt);
  dc_update_polyak := fun live targ rho => (rho * targ + (1 - rho) * live)%float;
  dc_test_policy := fun _ w => w
|}.

Definition toy_ddpg_config (gamma_ updates_per_step_ : float) (max_ep_length_ : Z)
    : ddpg_config float :=
  {| total_steps := 3; gamma := gamma_; replay_size := 10; polyak := flit 995 1000;
     start_steps := 0; epoch := 5000; mb_size := 1; act_noise := flit 1 10;
     max_ep_length := max_ep_length_; updates_per_step := updates_per_step_;
     ddpg_save_interval := 10 |}.

(** A state at the end of a three-step episode, one transition stored. *)
Definition toy_ddpg_state : @ddpg_state float toy_ddpg :=
  {| obs1 := [3]; ep_length := 3;
     replay := rb_store (rb_empty 10)
                 {| tr_ob1 := 0; tr_act := 1; tr_rew := 1%float; tr_ob2 := 1;
                    tr_done := 0%float |};
     policy := 3%float; q_func := 3%float; pi_targ := 3%float; qf_targ := 3%float;
     pi_optim := tt; qf_optim := tt; world := 3 |}.

(** The toy configuration with a snapshot period of zero. *)
Definition toy_ddpg_config_epoch0 : ddpg_config float :=
  {| total_steps := 3; gamma := flit 99 100; replay_size := 10; polyak := flit 995 1000;
     start_steps := 0; epoch := 0; mb_size := 1; act_noise := flit 1 10;
     max_ep_length := 1000; updates_per_step := 1%float;
     ddpg_save_interval := 10 |}.

(** [ddpg] on the toy collaborators: critic and policy start at 3. *)
Definition toy_ddpg_run (cfg : ddpg_config float)
    : traced (@ddpg_event float toy_ddpg) (@ddpg_state float toy_ddpg) :=
  ddpg cfg [0] 3%float 3%float tt tt 0.

(** Savers with a period of ten, an empty configuration and integer
    states. *)
Definition toy_latest_saver : SnapshotSaver unit :=
  {| save_interval := 10; config := tt; latest_only := true |}.

Definition toy_indexed_saver : SnapshotSaver unit :=
  {| save_interval := 10; config := tt; latest_only := false |}.

(** A [torch.save] whose files [torch.load] reads back, and one whose files
    it refuses. *)
Definition reads_back (c : unit * Z) : snapshot_file unit Z := Loadable c.
Definition refused (_ : unit * Z) : snapshot_file unit Z := Unreadable.

(** Snapshots 1 and 9 unpickle, snapshot 10 was cut short. *)
Definition toy_snapshots : gmap string (snapshot_file unit Z) :=
  <["1.pkl"%string := Loadable (tt, 1%Z)]>
    (<["9.pkl"%string := Loadable (tt, 9%Z)]>
       (<["10.pkl"%string := Truncated]> ∅)).

(** A numbered snapshot beside a [latest.pkl]. *)
Definition toy_mixed_snapshots : gmap string (snapshot_file unit Z) :=
  <["1.pkl"%string := Loadable (tt, 1%Z)]>
    (<["latest.pkl"%string := Loadable (tt, 5%Z)]> ∅).

End Fixtures.

(** * Properties *)

Import Float64 IntScalar Fixtures.

Set Warnings "-inexact-float".

(** ** Traced computations *)

Lemma bind_ok {E A B} (m : traced E A) (k : A -> traced E B) l a :
  m = (l, Ok a) -> bind m k = (l ++ events (k a), result (k a)).
Proof. intros ->. unfold bind, events, result. by destruct (k a). Qed.

Lemma bind_raise {E A B} (m : traced E A) (k : A -> traced E B) l e :
  m = (l, Raise e) -> bind m k = (l, Raise e).
Proof. by intros ->. Qed.

Lemma traced_eta {E A} (m : traced E A) : m = (events m, result m).
Proof. by destruct m. Qed.

Lemma events_bind {E A B} (m : traced E A) (k : A -> traced E B) :
  events (bind m k)
  = events m ++ match result m with Ok a => events (k a) | Raise _ => [] end.
Proof.
  destruct m as [l [a|e]]; simpl.
  - by destruct (k a).
  - by rewrite app_nil_r.
Qed.

Lemma result_bind {E A B} (m : traced E A) (k : A -> traced E B) :
  result (bind m k)
  = match result m with Ok a => result (k a) | Raise e => Raise e end.
Proof.
  destruct m as [l [a|e]]; simpl; [|done]. by destruct (k a).
Qed.

Lemma events_bind_emit {E B} (e : E) (k : unit -> traced E B) :
  events (bind (emit e) k) = e :: events (k tt).
Proof. unfold bind, emit, events. by destruct (k tt). Qed.

Lemma bind_ret_l {E A B} (a : A) (k : A -> traced E B) : bind (ret a) k = k a.
Proof. unfold bind, ret. by destruct (k a). Qed.

Lemma result_bind_emit {E B} (e : E) (k : unit -> traced E B) :
  result (bind (emit e) k) = result (k tt).
Proof. unfold bind, emit, result. by destruct (k tt). Qed.

Lemma bind_lift_ok {E A B} (a : A) (k : A -> traced E B) : bind (lift (Ok a)) k = k a.
Proof. apply bind_ret_l. Qed.

Lemma bind_lift_raise {E A B} (e : exn) (k : A -> traced E B) :
  bind (lift (Raise e)) k = ([], Raise e).
Proof. reflexivity. Qed.

Lemma py_range_from_one (n : Z) :
  py_range 1 (n + 1) 1 = Ok (map (fun k => (1 + Z.of_nat k * 1)%Z) (seq 0 (Z.to_nat n))).
Proof.
  unfold py_range. simpl Z.eqb. simpl Z.ltb. cbv iota.
  replace (n + 1 - 1 + 1 - 1)%Z with n by lia. by rewrite Z.div_1_r.
Qed.

(** An outcome of the saver's test for an interval that is not zero. *)
Lemma save_due_ok (interval index : Z) :
  interval <> 0%Z -> exists b, save_due interval index = Ok b.
Proof.
  intros Hi. unfold save_due. destruct (index =? 1)%Z; [eauto|].
  destruct (Z.eqb_spec interval 0); [done|eauto].
Qed.

(** ** conjugate_gradient *)

Section ConjugateGradientFacts.

Context {F : Type} `{Scalar F}.
Variable f_Ax : vec F -> vec F.
Variable residual_tol : F.
Variable b : vec F.

(** [f_Ax] maps vectors of the size of [b] to vectors of that size. *)
Hypothesis f_size : forall p, length p = length b -> length (f_Ax p) = length b.

Lemma dot_same_size {E} (a c : vec F) :
  length a = length c -> dot (E := E) a c = ret (dotT a c).
Proof. intros Hl. unfold dot. by rewrite Hl, Nat.eqb_refl. Qed.

Lemma length_vscale (c : F) (a : vec F) : length (vscale c a) = length a.
Proof. apply length_map. Qed.

Lemma length_vadd (a c : vec F) :
  length a = length c -> length (vadd a c) = length a.
Proof. intros Hl. unfold vadd. rewrite length_zip_with. lia. Qed.

Lemma length_vsub (a c : vec F) :
  length a = length c -> length (vsub a c) = length a.
Proof. intros Hl. unfold vsub. rewrite length_zip_with. lia. Qed.

Lemma sized_init : sized b (cg_init b).
Proof. unfold sized, cg_init, zeros_like. simpl. by rewrite length_map. Qed.

Lemma sized_recurrence s : sized b s -> sized b (cg_recurrence f_Ax s).
Proof.
  intros (Hx & Hr & Hp). pose proof (f_size _ Hp) as Hz.
  unfold sized, cg_recurrence. simpl.
  assert (Hr' : forall c, length (vsub (it_r s) (vscale c (f_Ax (it_p s)))) = length b).
  { intros c. rewrite length_vsub; [done|]. rewrite length_vscale. congruence. }
  repeat split.
  - rewrite length_vadd; [done|]. rewrite length_vscale. congruence.
  - apply Hr'.
  - rewrite length_vadd; [apply Hr'|]. rewrite Hr', length_vscale. congruence.
Qed.

Lemma sized_iterate k : sized b (cg_iterate_at f_Ax b k).
Proof. induction k; simpl; auto using sized_init, sized_recurrence. Qed.

Lemma cg_body_refines s :
  sized b s ->
  cg_body f_Ax (vars_of s)
  = ([EvMatVec (it_p s);
      EvDiv (dotT (it_r s) (it_r s)) (dotT (it_p s) (f_Ax (it_p s)));
      EvDiv (cg_rdotr (vars_of (cg_recurrence f_Ax s))) (dotT (it_r s) (it_r s))],
     Ok (vars_of (cg_recurrence f_Ax s))).
Proof.
  intros (Hx & Hr & Hp). pose proof (f_size _ Hp) as Hz.
  unfold cg_body, call_f, divide. simpl.
  rewrite (dot_same_size (it_p s) (f_Ax (it_p s))) by congruence.
  unfold ret at 1. unfold bind at 1.
  rewrite dot_same_size by done. reflexivity.
Qed.

Lemma cg_loop_refines n : forall k,
  result (cg_loop f_Ax residual_tol n (vars_of (cg_iterate_at f_Ax b k)))
  = Ok (it_x (cg_iterate_at f_Ax b (cg_stop_from f_Ax residual_tol b k n))).
Proof.
  induction n as [|n IH]; intros k; simpl; [done|].
  rewrite (bind_ok _ _ _ _ (cg_body_refines _ (sized_iterate k))).
  unfold result at 1. simpl snd. fold (result (A := vec F) (E := cg_event F)).
  unfold cg_converged. simpl cg_iterate_at.
  destruct (fltb _ residual_tol) eqn:Hc; [done|]. apply (IH (S k)).
Qed.

Lemma cg_stop_from_bounds n : forall k,
  k <= cg_stop_from f_Ax residual_tol b k n <= k + n
  /\ (1 <= n -> k + 1 <= cg_stop_from f_Ax residual_tol b k n).
Proof.
  induction n as [|n IH]; intros k; simpl; [lia|].
  destruct (cg_converged _ _ _ (S k)); [lia|].
  specialize (IH (S k)). lia.
Qed.

Lemma cg_stop_from_first n : forall k j,
  k < j < cg_stop_from f_Ax residual_tol b k n ->
  cg_converged f_Ax residual_tol b j = false.
Proof.
  induction n as [|n IH]; intros k j Hj; simpl in Hj; [lia|].
  destruct (cg_converged _ _ _ (S k)) eqn:Hc; [lia|].
  destruct (decide (j = S k)) as [->|Hne]; [done|].
  apply (IH (S k)). lia.
Qed.

Lemma cg_stop_from_hit n : forall k,
  cg_stop_from f_Ax residual_tol b k n < k + n ->
  cg_converged f_Ax residual_tol b (cg_stop_from f_Ax residual_tol b k n) = true.
Proof.
  induction n as [|n IH]; intros k Hlt; simpl in *; [lia|].
  destruct (cg_converged _ _ _ (S k)) eqn:Hc; [done|].
  apply IH. lia.
Qed.

Lemma conjugate_gradient_unfold cg_iters :
  conjugate_gradient f_Ax residual_tol b cg_iters
  = result (cg_loop f_Ax residual_tol cg_iters (vars_of (cg_init b))).
Proof.
  unfold conjugate_gradient, conjugate_gradient_traced.
  rewrite (dot_same_size b b) by done. unfold ret at 1.
  erewrite bind_ok by reflexivity. done.
Qed.

End ConjugateGradientFacts.

Lemma events_bind_prefix {E A B} (m : traced E A) (k : A -> traced E B) :
  exists rest, events (bind m k) = events m ++ rest.
Proof.
  destruct m as [l [a|e]]; simpl.
  - destruct (k a) as [l' o]. by exists l'.
  - exists []. by rewrite app_nil_r.
Qed.

(** C1.  On every matrix-vector product [f_Ax] that keeps the size of [b],
    the solver returns the [x] of the iterate number [cg_stop] of the
    recurrence started at [x = 0], [r = p = b]; that number is at most
    [cg_iters], it is the first one (counted from 1) whose residual passes
    [r . r < residual_tol], or [cg_iters] when none does; the defaults are 10
    iterations and a tolerance of [1e-10]. *)
Theorem conjugate_gradient_recurrence {F : Type} `{Scalar F}
    (f_Ax : vec F -> vec F) (residual_tol : F) (b : vec F) (cg_iters : nat) :
  (forall p, length p = length b -> length (f_Ax p) = length b) ->
  let k := cg_stop f_Ax residual_tol b cg_iters in
  conjugate_gradient f_Ax residual_tol b cg_iters
  = Ok (it_x (cg_iterate_at f_Ax b k))
  /\ k <= cg_iters
  /\ (1 <= cg_iters -> 1 <= k)
  /\ (forall j, 1 <= j < k -> cg_converged f_Ax residual_tol b j = false)
  /\ (k < cg_iters -> cg_converged f_Ax residual_tol b k = true)
  /\ cg_iters_default = 10
  /\ residual_tol_default (F := F) = flit 1 10000000000.
Proof.
  intros Hf k. subst k. unfold cg_stop.
  pose proof (cg_stop_from_bounds f_Ax residual_tol b cg_iters 0) as [Hb Hone].
  repeat split; try lia.
  - rewrite conjugate_gradient_unfold by done.
    apply (cg_loop_refines f_Ax residual_tol b Hf cg_iters 0).
  - intros j Hj. apply (cg_stop_from_first f_Ax residual_tol b cg_iters 0). lia.
  - intros Hlt. apply cg_stop_from_hit. lia.
Qed.

(** C6, amended.  On every matrix-vector product that keeps the size of [b]
    the solver raises nothing: it returns the iterate it has reached, of the
    size of [b], after some [k <= cg_iters] iterations, stopping before
    [cg_iters] only when the tolerance test has passed. *)
Theorem conjugate_gradient_returns_current_iterate {F : Type} `{Scalar F}
    (f_Ax : vec F -> vec F) (residual_tol : F) (b : vec F) (cg_iters : nat) :
  (forall p, length p = length b -> length (f_Ax p) = length b) ->
  exists k x,
    k <= cg_iters
    /\ conjugate_gradient f_Ax residual_tol b cg_iters = Ok x
    /\ x = it_x (cg_iterate_at f_Ax b k)
    /\ length x = length b
    /\ (k = cg_iters \/ cg_converged f_Ax residual_tol b k = true).
Proof.
  intros Hf.
  pose proof (cg_stop_from_bounds f_Ax residual_tol b cg_iters 0) as [Hb _].
  exists (cg_stop_from f_Ax residual_tol b 0 cg_iters), (it_x (cg_iterate_at f_Ax b (cg_stop_from f_Ax residual_tol b 0 cg_iters))).
  split; [lia|]. split.
  { rewrite conjugate_gradient_unfold by done.
    apply (cg_loop_refines f_Ax residual_tol b Hf cg_iters 0). }
  split; [done|]. split.
  { apply (sized_iterate f_Ax b Hf). }
  destruct (decide (cg_stop_from f_Ax residual_tol b 0 cg_iters = cg_iters)) as [->|Hne];
    [by left|right].
  apply cg_stop_from_hit. lia.
Qed.

Lemma cg_body_events_head {F : Type} `{Scalar F} (g : vec F -> vec F) (s : cg_vars F) :
  exists rest, events (cg_body g s) = EvMatVec (cg_p s) :: rest.
Proof.
  unfold cg_body.
  rewrite (bind_ok (call_f g (cg_p s)) _ [EvMatVec (cg_p s)] (g (cg_p s)) eq_refl).
  simpl. eauto.
Qed.

(** The first pass through the loop body, when [f_Ax(b)] has the size of
    [b]: the call, the step size, the two updates, the new residual norm and
    the ratio for the next direction. *)
Lemma cg_body_first {F : Type} `{Scalar F} (g : vec F -> vec F) (c : vec F) :
  length (g c) = length c ->
  let z := g c in
  let v := (dotT c c / dotT c z)%S in
  let r1 := vsub c (vscale v z) in
  let x1 := vadd (zeros_like c) (vscale v c) in
  let rr := dotT r1 r1 in
  cg_body g {| cg_p := c; cg_r := c; cg_x := zeros_like c; cg_rdotr := dotT c c |}
  = ([EvMatVec c; EvDiv (dotT c c) (dotT c z); EvDiv rr (dotT c c)],
     Ok {| cg_p := vadd r1 (vscale (rr / dotT c c)%S c); cg_r := r1; cg_x := x1;
           cg_rdotr := rr |}).
Proof.
  intros Hlen z v r1 x1 rr.
  unfold cg_body, call_f, divide. simpl.
  rewrite (dot_same_size c (g c)) by congruence.
  unfold ret at 1. unfold bind at 1.
  rewrite dot_same_size by done. reflexivity.
Qed.

Lemma cg_traced_first {F : Type} `{Scalar F} (g : vec F -> vec F) (tol : F)
    (c : vec F) (m : nat) :
  length (g c) = length c ->
  let z := g c in
  let v := (dotT c c / dotT c z)%S in
  let r1 := vsub c (vscale v z) in
  let x1 := vadd (zeros_like c) (vscale v c) in
  let rr := dotT r1 r1 in
  let s1 := {| cg_p := vadd r1 (vscale (rr / dotT c c)%S c); cg_r := r1; cg_x := x1;
               cg_rdotr := rr |} in
  let k := if (rr <? tol)%S then ret x1 else cg_loop g tol m s1 in
  conjugate_gradient_traced g tol c (S m)
  = ([EvMatVec c; EvDiv (dotT c c) (dotT c z); EvDiv rr (dotT c c)] ++ events k,
     result k).
Proof.
  intros Hlen z v r1 x1 rr s1 k.
  unfold conjugate_gradient_traced.
  rewrite (dot_same_size c c) by done. rewrite bind_ret_l. cbn [cg_loop].
  rewrite (bind_ok _ _ _ _ (cg_body_first g c Hlen)). reflexivity.
Qed.

Lemma cg_traced_events_body {F : Type} `{Scalar F} (g : vec F -> vec F) (tol : F)
    (c : vec F) (m : nat) :
  exists rest,
    events (conjugate_gradient_traced g tol c (S m))
    = events (cg_body g {| cg_p := c; cg_r := c; cg_x := zeros_like c;
                           cg_rdotr := dotT c c |}) ++ rest.
Proof.
  unfold conjugate_gradient_traced. unfold dot at 1. rewrite Nat.eqb_refl.
  unfold ret at 1. erewrite bind_ok by reflexivity. simpl app.
  rewrite <- traced_eta. simpl cg_loop.
  apply events_bind_prefix.
Qed.

(** The all-zero vector in binary64, and its inner product with itself. *)
Lemma dotT_zeros_float (n : nat) :
  dotT (H := Float64.scalar) (repeat 0%float n) (repeat 0%float n) = 0%float.
Proof.
  unfold dotT.
  assert (Hgen : forall m, fold_left
            (fun acc xy => (acc + fst xy * snd xy)%S)
            (combine (repeat 0%float m) (repeat 0%float m)) 0%float = 0%float).
  { induction m as [|m IH]; [done|]. simpl. exact IH. }
  apply Hgen.
Qed.

(** C9.  With a budget of at least one iteration the solver calls [f_Ax] on
    [b] whatever the tolerance and the initial residual are.  When the
    product has the size of [b] it goes through one full iteration: it
    divides [b . b] by [b . f_Ax(b)] with no test on that denominator,
    updates [x] and [r], and divides the new [r . r] by the old one; only
    then is the tolerance tested, on the new [r . r], so that the solver
    returns the updated [x] after this one iteration when the test passes or
    the budget is one.  In binary64, for an all-zero [b] and a product that
    maps it to itself, the first division is 0/0, a NaN. *)
Theorem cg_first_iteration_unguarded {F : Type} `{Scalar F}
    (f_Ax : vec F -> vec F) (residual_tol : F) (b : vec F) (cg_iters : nat) :
  1 <= cg_iters ->
  let z := f_Ax b in
  let v := (dotT b b / dotT b z)%S in
  let x1 := vadd (zeros_like b) (vscale v b) in
  let r1 := vsub b (vscale v z) in
  (exists rest,
     events (conjugate_gradient_traced f_Ax residual_tol b cg_iters)
     = EvMatVec b :: rest)
  /\ (length (f_Ax b) = length b ->
      exists rest,
        events (conjugate_gradient_traced f_Ax residual_tol b cg_iters)
        = EvMatVec b :: EvDiv (dotT b b) (dotT b z)
          :: EvDiv (dotT r1 r1) (dotT b b) :: rest)
  /\ (length (f_Ax b) = length b ->
      (dotT r1 r1 <? residual_tol)%S = true \/ cg_iters = 1 ->
      conjugate_gradient_traced f_Ax residual_tol b cg_iters
      = ([EvMatVec b; EvDiv (dotT b b) (dotT b z); EvDiv (dotT r1 r1) (dotT b b)],
         Ok x1))
  /\ (forall (g : vec float -> vec float) (tol : float) (n : nat),
        g (repeat 0%float n) = repeat 0%float n ->
        (exists rest,
          events (conjugate_gradient_traced (H := Float64.scalar) g tol
                    (repeat 0%float n) cg_iters)
          = EvMatVec (repeat 0%float n) :: EvDiv 0%float 0%float :: rest)
        /\ PrimFloat.is_nan (0 / 0)%float = true).
Proof.
  intros Hn z v x1 r1. destruct cg_iters as [|m]; [lia|].
  split; [|split; [|split]].
  - destruct (cg_traced_events_body f_Ax residual_tol b m) as [rest Hrest].
    destruct (cg_body_events_head f_Ax
      {| cg_p := b; cg_r := b; cg_x := zeros_like b; cg_rdotr := dotT b b |})
      as [rest' Hr]. rewrite Hrest, Hr. simpl. eauto.
  - intros Hlen. rewrite (cg_traced_first f_Ax residual_tol b m Hlen).
    cbn [events fst app]. eauto.
  - intros Hlen Hstop. rewrite (cg_traced_first f_Ax residual_tol b m Hlen).
    fold z. fold v. fold r1. fold x1.
    destruct Hstop as [Htest|Hone].
    + rewrite Htest. reflexivity.
    + injection Hone as ->. cbn [cg_loop cg_x].
      by destruct (fltb (dotT r1 r1) residual_tol).
  - intros g tol n Hg. split; [|reflexivity].
    assert (Hlen : length (g (repeat 0%float n)) = length (repeat 0%float n))
      by by rewrite Hg.
    rewrite (cg_traced_first (H := Float64.scalar) g tol (repeat 0%float n) m Hlen).
    rewrite Hg, dotT_zeros_float. cbn [events fst app]. eauto.
Qed.

Lemma conjugate_gradient_recurrence_witness :
  let k := cg_stop (Fixtures.diag Fixtures.b123) residual_tol_default Fixtures.b123 10 in
  conjugate_gradient (Fixtures.diag Fixtures.b123) residual_tol_default Fixtures.b123 10
  = Ok (it_x (cg_iterate_at (Fixtures.diag Fixtures.b123) Fixtures.b123 k))
  /\ k <= 10
  /\ (1 <= 10 -> 1 <= k)
  /\ (forall j, 1 <= j < k ->
      cg_converged (Fixtures.diag Fixtures.b123) residual_tol_default Fixtures.b123 j = false)
  /\ (k < 10 ->
      cg_converged (Fixtures.diag Fixtures.b123) residual_tol_default Fixtures.b123 k = true)
  /\ cg_iters_default = 10
  /\ residual_tol_default (F := float) = flit 1 10000000000.
Proof.
  apply (conjugate_gradient_recurrence (Fixtures.diag Fixtures.b123)
           residual_tol_default Fixtures.b123 10).
  intros p Hp. unfold Fixtures.diag. rewrite length_zip_with, Hp. reflexivity.
Defined.

(** On [diag(1,2,3) x = (1,2,3)] the solver stops after three iterations
    with the exact solution. *)
Example conjugate_gradient_diag123 :
  conjugate_gradient (Fixtures.diag Fixtures.b123) residual_tol_default Fixtures.b123
    cg_iters_default = Ok [1; 1; 1]%float
  /\ cg_stop (Fixtures.diag Fixtures.b123) residual_tol_default Fixtures.b123
       cg_iters_default = 3.
Proof. split; reflexivity. Qed.

Lemma conjugate_gradient_returns_current_iterate_witness :
  exists k x,
    k <= 10
    /\ conjugate_gradient Fixtures.damped_zero residual_tol_default [0; 0]%float 10 = Ok x
    /\ x = it_x (cg_iterate_at Fixtures.damped_zero [0; 0]%float k)
    /\ length x = length [0; 0]%float
    /\ (k = 10 \/ cg_converged Fixtures.damped_zero residual_tol_default [0; 0]%float k = true).
Proof.
  apply (conjugate_gradient_returns_current_iterate Fixtures.damped_zero
           residual_tol_default [0; 0]%float 10).
  intros p Hp. unfold Fixtures.damped_zero, vadd, zeros_like.
  rewrite length_zip_with, !length_map, Hp. reflexivity.
Defined.

(** C6, as stated, fails: for the singular zero Fisher matrix with the
    default nonzero damping and an all-zero target, the solver returns a
    vector of NaN. *)
Lemma conjugate_gradient_zero_target_nan :
  conjugate_gradient Fixtures.damped_zero residual_tol_default [0; 0]%float
    cg_iters_default = Ok [nan; nan]%float
  /\ forallb Float64.is_finite [nan; nan]%float = false.
Proof. split; reflexivity. Qed.

(** A target whose squared norm is already below the tolerance: the solver
    still performs its one iteration, and returns the updated [x], not the
    zero vector it started from. *)
Lemma cg_first_iteration_unguarded_witness :
  (dotT Fixtures.tiny_b Fixtures.tiny_b <? residual_tol_default)%S = true
  /\ conjugate_gradient_traced (Fixtures.diag [1%float]) residual_tol_default
       Fixtures.tiny_b cg_iters_default
     = ([EvMatVec Fixtures.tiny_b;
         EvDiv (dotT Fixtures.tiny_b Fixtures.tiny_b)
               (dotT Fixtures.tiny_b Fixtures.tiny_b);
         EvDiv 0%float (dotT Fixtures.tiny_b Fixtures.tiny_b)],
        Ok Fixtures.tiny_b).
Proof.
  split; [reflexivity|].
  destruct (cg_first_iteration_unguarded (Fixtures.diag [1%float])
              residual_tol_default Fixtures.tiny_b cg_iters_default)
    as (_ & _ & Hone & _).
  - unfold cg_iters_default. lia.
  - rewrite Hone; [reflexivity|reflexivity|by left].
Defined.

(** ** explained_variance_1d *)

(** C10, amended.  On two one-dimensional tensors the diagnostic is 1 when
    the variance of [y] is close to zero ([numpy.isclose] to 0) and the
    variance of [ypred] is not above [1e-8], it is 0 when the variance of
    [y] is close to zero and that of [ypred] is above [1e-8], in both cases
    whatever the two sizes; otherwise, for two tensors of the same size, it
    is [1 - var(y - ypred) / (var(y) + 1e-8)], and for sizes that differ,
    neither of them 1, the subtraction raises a size mismatch.  On an input
    that is not one-dimensional the assertion fails. *)
Theorem explained_variance_1d_cases {F : Type} `{Scalar F}
    (tvar : vec F -> F) (ypred y : tensor F) :
  (dim y = 1 -> dim ypred = 1 ->
     (isclose (tvar (data y)) (of_Z 0) = true ->
      fgtb (tvar (data ypred)) (flit 1 100000000) = false ->
      explained_variance_1d tvar ypred y = Ok (of_Z 1))
     /\ (isclose (tvar (data y)) (of_Z 0) = true ->
         fgtb (tvar (data ypred)) (flit 1 100000000) = true ->
         explained_variance_1d tvar ypred y = Ok (of_Z 0))
     /\ (isclose (tvar (data y)) (of_Z 0) = false ->
         length (data y) = length (data ypred) ->
         explained_variance_1d tvar ypred y
         = Ok (of_Z 1 - tvar (vsub (data y) (data ypred))
                        / (tvar (data y) + flit 1 100000000))%S)
     /\ (isclose (tvar (data y)) (of_Z 0) = false ->
         length (data y) <> length (data ypred) ->
         length (data y) <> 1 -> length (data ypred) <> 1 ->
         explained_variance_1d tvar ypred y = Raise ShapeError))
  /\ (dim y <> 1 \/ dim ypred <> 1 ->
      explained_variance_1d tvar ypred y = Raise AssertionError).
Proof.
  split.
  - intros Hy Hp. unfold explained_variance_1d. rewrite Hy, Hp. simpl.
    change (10 ^ 8)%Z with 100000000%Z.
    split; [|split; [|split]].
    + by intros -> ->.
    + by intros -> ->.
    + intros -> Hlen. unfold broadcast. by rewrite Hlen, Nat.eqb_refl.
    + intros -> Hne Hy1 Hp1. unfold broadcast.
      destruct (Nat.eqb_spec (length (data y)) (length (data ypred))); [done|].
      destruct (data y) as [|a [|a' ly]], (data ypred) as [|c [|c' lp]];
        simpl in *; congruence.
  - intros Hd. unfold explained_variance_1d.
    destruct (Nat.eqb_spec (dim y) 1) as [Hy|Hy]; [|done].
    destruct (Nat.eqb_spec (dim ypred) 1) as [Hp|Hp]; [|done].
    destruct Hd; done.
Qed.

(** C10, as stated, fails: for a [y] of three entries whose variance is not
    close to zero and a [ypred] of two entries, both one-dimensional, the
    diagnostic returns nothing: the subtraction [y - ypred] raises. *)
Lemma explained_variance_1d_size_mismatch :
  dim (Fixtures.tensor1 [1; 2; 4]%float) = 1
  /\ dim (Fixtures.tensor1 [1; 2]%float) = 1
  /\ isclose (Fixtures.var_unbiased [1; 2; 4]%float) (of_Z 0) = false
  /\ explained_variance_1d Fixtures.var_unbiased
       (Fixtures.tensor1 [1; 2]%float) (Fixtures.tensor1 [1; 2; 4]%float)
     = Raise ShapeError.
Proof. repeat split. Qed.

Lemma explained_variance_1d_cases_witness :
  explained_variance_1d Fixtures.var_unbiased
    (Fixtures.tensor1 [2; 2]%float) (Fixtures.tensor1 [1; 1]%float) = Ok (of_Z 1)
  /\ explained_variance_1d Fixtures.var_unbiased
       (Fixtures.tensor1 [0; 4]%float) (Fixtures.tensor1 [1; 1]%float) = Ok (of_Z 0)
  /\ explained_variance_1d Fixtures.var_unbiased
       (Fixtures.tensor1 [1; 2]%float) (Fixtures.tensor1 [1; 3]%float)
     = Ok (of_Z 1 - Fixtures.var_unbiased (vsub [1; 3] [1; 2])
                    / (Fixtures.var_unbiased [1; 3] + flit 1 100000000))%S%float
  /\ explained_variance_1d Fixtures.var_unbiased
       {| shape := [1; 2]; data := [1; 2]%float |} (Fixtures.tensor1 [1; 3]%float)
     = Raise AssertionError.
Proof.
  split; [|split; [|split]].
  - apply (explained_variance_1d_cases Fixtures.var_unbiased
             (Fixtures.tensor1 [2; 2]%float) (Fixtures.tensor1 [1; 1]%float));
      reflexivity.
  - apply (explained_variance_1d_cases Fixtures.var_unbiased
             (Fixtures.tensor1 [0; 4]%float) (Fixtures.tensor1 [1; 1]%float));
      reflexivity.
  - apply (explained_variance_1d_cases Fixtures.var_unbiased
             (Fixtures.tensor1 [1; 2]%float) (Fixtures.tensor1 [1; 3]%float));
      reflexivity.
  - apply (explained_variance_1d_cases Fixtures.var_unbiased
             {| shape := [1; 2]; data := [1; 2]%float |} (Fixtures.tensor1 [1; 3]%float)).
    right. unfold dim. simpl. lia.
Defined.

Lemma result_bind_inv {E A B} (m : traced E A) (k : A -> traced E B) (b : B) :
  result (bind m k) = Ok b -> exists a, result m = Ok a /\ result (k a) = Ok b.
Proof.
  destruct m as [l [a|e]]; simpl; [|done].
  destruct (k a) as [l' o] eqn:Hk. simpl. intros ->.
  exists a. by rewrite Hk.
Qed.

(** ** Parameters as vectors *)

Section ParameterFacts.

Context {F : Type} `{Scalar F}.
Implicit Types (sigma : gmap loc (vec F)) (ps : params) (v : vec F).

(** Writing a vector into a model touches the locations of that model only. *)
Lemma vector_to_parameters_from_frame v ps : forall pointer sigma sigma',
  vector_to_parameters_from pointer v ps sigma = Ok sigma' ->
  forall l, l ∉ ps -> sigma' !! l = sigma !! l.
Proof.
  induction ps as [|l0 ps IH]; intros pointer sigma sigma' Hw l Hl; simpl in Hw.
  - congruence.
  - apply not_elem_of_cons in Hl as [Hne Hl].
    destruct (Nat.eqb _ _); [|done].
    rewrite (IH _ _ _ Hw l Hl). by apply lookup_insert_ne.
Qed.

Lemma parameters_to_vector_ext ps sigma sigma' :
  (forall l, l ∈ ps -> sigma' !! l = sigma !! l) ->
  parameters_to_vector ps sigma' = parameters_to_vector ps sigma.
Proof.
  intros Hsame. unfold parameters_to_vector. f_equal.
  apply map_ext_in. intros l Hl. unfold param_at.
  rewrite Hsame; [done|]. by apply list_elem_of_In.
Qed.

(** Written into a model without shared parameters, a vector that is long
    enough is read back unchanged. *)
Lemma vector_to_parameters_from_read v ps : forall pointer sigma,
  NoDup ps ->
  pointer + numel ps sigma <= length v ->
  exists sigma',
    vector_to_parameters_from pointer v ps sigma = Ok sigma'
    /\ parameters_to_vector ps sigma' = take (numel ps sigma) (drop pointer v).
Proof.
  induction ps as [|l0 ps IH]; intros pointer sigma Hnd Hlen.
  - exists sigma. by rewrite take_0.
  - apply NoDup_cons in Hnd as [Hl0 Hnd].
    unfold numel, parameters_to_vector in Hlen. simpl in Hlen.
    rewrite length_app in Hlen.
    fold (parameters_to_vector ps sigma) in Hlen. fold (numel ps sigma) in Hlen.
    set (n0 := length (param_at sigma l0)) in *.
    set (chunk := take n0 (drop pointer v)).
    assert (Hchunk : length chunk = n0).
    { unfold chunk. rewrite length_take, length_drop. lia. }
    assert (Hsame : parameters_to_vector ps (<[l0:=chunk]> sigma)
                    = parameters_to_vector ps sigma).
    { apply parameters_to_vector_ext. intros l Hl.
      apply lookup_insert_ne. intros ->. done. }
    destruct (IH (pointer + n0) (<[l0:=chunk]> sigma) Hnd) as (sigma' & Hw & Hr).
    { unfold numel. rewrite Hsame. fold (numel ps sigma). lia. }
    exists sigma'. split.
    + simpl. fold n0. fold chunk. by rewrite Hchunk, Nat.eqb_refl.
    + unfold numel in Hr. rewrite Hsame in Hr. fold (numel ps sigma) in Hr.
      unfold numel at 1. unfold parameters_to_vector at 1 2. simpl.
      fold (parameters_to_vector ps sigma') (parameters_to_vector ps sigma).
      rewrite length_app. fold n0. fold (numel ps sigma).
      rewrite Hr.
      assert (Hp0 : param_at sigma' l0 = chunk).
      { unfold param_at.
        pose proof (vector_to_parameters_from_frame _ _ _ _ _ Hw l0 Hl0) as Hf.
        rewrite Hf.
        by rewrite lookup_insert_eq. }
      rewrite Hp0. unfold chunk.
      rewrite <- (take_take_drop (drop pointer v) n0 (numel ps sigma)).
      by rewrite drop_drop.
Qed.

End ParameterFacts.

(** ** The natural-gradient step *)

Section NaturalFacts.

Context {F : Type} `{Scalar F} `{NaturalCollab F}.
Variable cfg : natural_config F.
Variables policy val_fn : params.

Lemma natural_step_frame batch subsamp_obs (sigma sigma' : gmap loc (vec F)) :
  result (natural_step cfg policy batch subsamp_obs sigma) = Ok sigma' ->
  forall l, l ∉ policy -> sigma' !! l = sigma !! l.
Proof.
  unfold natural_step. intros Hr.
  apply result_bind_inv in Hr as (_ & _ & Hr).
  apply result_bind_inv in Hr as (x & _ & Hr).
  apply result_bind_inv in Hr as (gx & _ & Hr).
  apply result_bind_inv in Hr as (new_params & _ & Hr).
  apply result_bind_inv in Hr as (_ & _ & Hr).
  intros l Hl.
  exact (vector_to_parameters_from_frame _ _ _ _ _ Hr l Hl).
Qed.

Lemma value_step_frame batch (s s' : natural_state) :
  result (value_step val_fn batch s) = Ok s' ->
  forall l, l ∉ val_fn -> ns_store s' !! l = ns_store s !! l.
Proof.
  unfold value_step. destruct (nc_val_step _ _ _) as [w' opt']. intros Hr.
  apply result_bind_inv in Hr as (_ & _ & Hr).
  apply result_bind_inv in Hr as (sigma1 & Hw & Hr).
  injection Hr as <-. simpl. intros l Hl.
  exact (vector_to_parameters_from_frame _ _ _ _ _ Hw l Hl).
Qed.

Lemma value_regression_frame batch iters : forall (s s' : natural_state),
  result (value_regression val_fn iters batch s) = Ok s' ->
  forall l, l ∉ val_fn -> ns_store s' !! l = ns_store s !! l.
Proof.
  induction iters as [|k IH]; intros s s' Hr l Hl; simpl in Hr.
  - by injection Hr as <-.
  - apply result_bind_inv in Hr as (s1 & H1 & Hr).
    rewrite (IH _ _ Hr l Hl). exact (value_step_frame _ _ _ H1 l Hl).
Qed.

Lemma natural_step_run batch subsamp_obs (sigma : gmap loc (vec F)) (x : vec F) :
  let theta := parameters_to_vector policy sigma in
  let g := nc_policy_gradient theta batch in
  let new_params :=
    zip_with fsub theta (map (fun d => d * step_scale cfg (dotT g x))%S x) in
  nc_conjugate_gradient (fun v => nc_fisher_vec_prod v subsamp_obs theta) g = Ok x ->
  length g = length x ->
  length theta = length x ->
  NoDup policy ->
  exists sigma',
    natural_step cfg policy batch subsamp_obs sigma
    = ([NSolve g; NPolicyUpdate new_params], Ok sigma')
    /\ parameters_to_vector policy sigma' = new_params.
Proof.
  intros theta g new_params Hcg Hg Hth Hnd.
  assert (Hnew : length new_params = length theta).
  { unfold new_params. rewrite length_zip_with, length_map. lia. }
  destruct (vector_to_parameters_from_read new_params policy 0 sigma Hnd)
    as (sigma' & Hw & Hread).
  { unfold numel. fold theta. lia. }
  exists sigma'. split.
  - unfold natural_step, vector_to_parameters. fold theta. fold g. rewrite Hcg.
    cbn [bind emit lift ret app].
    unfold dot. rewrite Hg, Nat.eqb_refl.
    cbn [bind emit lift ret app].
    unfold broadcast. rewrite length_map, Hth, Nat.eqb_refl.
    cbn [bind emit lift ret app].
    fold new_params. rewrite Hw. reflexivity.
  - rewrite Hread. unfold numel. fold theta. rewrite drop_0.
    apply take_ge. lia.
Qed.

End NaturalFacts.

(** C8.  When the natural-gradient step succeeds, every location of the
    store outside the policy keeps its tensor; so a value function that
    shares no parameter with the policy reads back unchanged.  The value
    regression that follows writes the value function's locations only. *)
Theorem natural_step_leaves_value_function {F : Type} `{Scalar F} `{NaturalCollab F}
    (cfg : natural_config F) (policy val_fn : params) (batch : NBatch)
    (subsamp_obs : NObs) (sigma sigma' : gmap loc (vec F)) :
  result (natural_step cfg policy batch subsamp_obs sigma) = Ok sigma' ->
  (forall l, l ∈ val_fn -> l ∉ policy) ->
  (forall l, l ∉ policy -> sigma' !! l = sigma !! l)
  /\ parameters_to_vector val_fn sigma' = parameters_to_vector val_fn sigma
  /\ (forall iters opt w s'',
        result (value_regression val_fn iters batch
                  {| ns_store := sigma'; ns_val_optim := opt; ns_world := w |}) = Ok s'' ->
        parameters_to_vector policy (ns_store s'') = parameters_to_vector policy sigma').
Proof.
  intros Hr Hdisj. split; [|split].
  - exact (natural_step_frame cfg policy batch subsamp_obs sigma sigma' Hr).
  - apply parameters_to_vector_ext. intros l Hl.
    exact (natural_step_frame cfg policy batch subsamp_obs sigma sigma' Hr l (Hdisj l Hl)).
  - intros iters opt w s'' Hv.
    apply parameters_to_vector_ext. intros l Hl.
    apply (value_regression_frame val_fn batch iters _ _ Hv l).
    intros Hin. exact (Hdisj l Hin Hl).
Qed.

Lemma natural_step_leaves_value_function_witness :
  exists sigma',
    result (natural_step Fixtures.toy_natural_config Fixtures.toy_policy Fixtures.toy_batch Fixtures.toy_obs
              Fixtures.toy_store) = Ok sigma'
    /\ (forall l, l ∉ Fixtures.toy_policy -> sigma' !! l = Fixtures.toy_store !! l)
    /\ parameters_to_vector Fixtures.toy_val_fn sigma' = [5; 6]%float.
Proof.
  destruct (result (natural_step Fixtures.toy_natural_config Fixtures.toy_policy Fixtures.toy_batch Fixtures.toy_obs
                      Fixtures.toy_store)) as [sigma'|e] eqn:Hr; [|by vm_compute in Hr].
  exists sigma'. split; [done|].
  destruct (natural_step_leaves_value_function Fixtures.toy_natural_config
              Fixtures.toy_policy Fixtures.toy_val_fn Fixtures.toy_batch Fixtures.toy_obs Fixtures.toy_store sigma' Hr)
    as (Hframe & Hval & _).
  { intros l Hl Hp. apply list_elem_of_In in Hl, Hp. simpl in Hl, Hp. lia. }
  split; [exact Hframe|]. rewrite Hval. reflexivity.
Defined.

(** C3.  When the solver returns a direction [x] of the size of the gradient
    [g] and of the parameter vector, the step performs one solve and one
    write, and the policy then reads back as [theta - s x] with
    [s = sqrt (2 delta / (g . x + 1e-8))]: nothing bounds [s].  In binary64
    with [delta = 0.01] the scale is about 1414 at [g . x = 0], against 0.14
    at [g . x = 1]; it is infinite at [g . x = -1e-8] and NaN below. *)
Theorem natural_step_update {F : Type} `{Scalar F} `{NaturalCollab F}
    (cfg : natural_config F) (policy : params) (batch : NBatch)
    (subsamp_obs : NObs) (sigma : gmap loc (vec F)) (x : vec F) :
  let theta := parameters_to_vector policy sigma in
  let g := nc_policy_gradient theta batch in
  let s := fsqrt (of_Z 2 * nat_delta cfg / (dotT g x + flit 1 100000000))%S in
  nc_conjugate_gradient (fun v => nc_fisher_vec_prod v subsamp_obs theta) g = Ok x ->
  length g = length x ->
  length theta = length x ->
  NoDup policy ->
  (exists sigma',
     natural_step cfg policy batch subsamp_obs sigma
     = ([NSolve g; NPolicyUpdate (zip_with fsub theta (map (fun d => d * s)%S x))],
        Ok sigma')
     /\ parameters_to_vector policy sigma'
        = zip_with fsub theta (map (fun d => d * s)%S x))
  /\ step_scale Fixtures.toy_natural_config 0%float = 1414.2135623730951%float
  /\ step_scale Fixtures.toy_natural_config 1%float = 0.14142135553020274%float
  /\ step_scale Fixtures.toy_natural_config (- flit 1 100000000)%float = infinity
  /\ step_scale Fixtures.toy_natural_config (-1)%float = nan.
Proof.
  intros theta g s Hcg Hg Hth Hnd. split.
  - exact (natural_step_run cfg policy batch subsamp_obs sigma x Hcg Hg Hth Hnd).
  - repeat split.
Qed.

Lemma natural_step_update_witness :
  exists sigma',
    natural_step Fixtures.toy_natural_config Fixtures.toy_policy Fixtures.toy_batch
      Fixtures.toy_obs Fixtures.toy_store
    = ([NSolve [2; 4; 6]%float;
        NPolicyUpdate [0.96222243676423747; 1.9244448735284749; 2.8866673102927125]%float],
       Ok sigma')
    /\ parameters_to_vector Fixtures.toy_policy sigma'
       = [0.96222243676423747; 1.9244448735284749; 2.8866673102927125]%float.
Proof.
  refine (proj1 (natural_step_update Fixtures.toy_natural_config Fixtures.toy_policy
            Fixtures.toy_batch Fixtures.toy_obs Fixtures.toy_store
            match conjugate_gradient
                    (fun v => vadd v (map (fun a => a * damping_default)%S v))
                    residual_tol_default [2; 4; 6]%float cg_iters_default with
            | Ok x => x
            | Raise _ => []
            end _ _ _ _)).
  - reflexivity.
  - reflexivity.
  - reflexivity.
  - unfold Fixtures.toy_policy. apply NoDup_cons. split.
    + intros Hin. apply list_elem_of_In in Hin. simpl in Hin. lia.
    + apply NoDup_singleton.
Defined.

(** ** fisher_vector_product *)

Section FisherFacts.

Context {F : Type} `{Scalar F}.

(** Differentiating [matmul] with a vector without history differentiates
    its first argument entry by entry. *)
Lemma value_derivative_matmul (i : nat) (a : list (graph F)) (v theta : vec F) :
  value (derivative i (matmul a v)) theta
  = dotT (map (fun g => value (derivative i g) theta) a) v.
Proof.
  unfold matmul.
  change (dotT (map (fun g => value g theta) (map (derivative i) a)) v
          = dotT (map (fun g => value (derivative i g) theta) a) v).
  by rewrite map_map.
Qed.

Lemma value_detach (theta0 theta : vec F) (g : graph F) :
  value (detach theta0 g) theta = value g theta0.
Proof. reflexivity. Qed.

Lemma value_derivative_detach (i : nat) (theta0 theta : vec F) (g : graph F) :
  value (derivative i (detach theta0 g)) theta = fzero.
Proof. reflexivity. Qed.

Lemma zip_with_map_map (h : nat -> F) (k : F -> F) (js : list nat) : forall (v : vec F),
  zip_with fadd (map h js) (map k v) = zip_with (fun j y => (h j + k y)%S) js v.
Proof.
  induction js as [|j js IH]; intros [|y v]; simpl; try done. by rewrite IH.
Qed.

Variables Obs Dist : Type.
Variable policy_dists : Obs -> Dist.
Variable flatparam : Dist -> list (graph F).
Variable pdtype : list (graph F) -> Dist.
Variable kl : Dist -> Dist -> list (graph F).
Variable mean : list (graph F) -> graph F.

Lemma fisher_vector_product_run (v : vec F) (obs : Obs) (theta0 : vec F) (damping : F) :
  length v = length theta0 ->
  fisher_vector_product Obs Dist policy_dists flatparam pdtype kl mean
    v obs theta0 damping
  = Ok (damped_fisher_times Obs Dist policy_dists flatparam pdtype kl mean
          obs theta0 v damping).
Proof.
  intros Hlen. unfold fisher_vector_product. rewrite Hlen, Nat.eqb_refl.
  unfold broadcast, flat_grad at 1.
  rewrite !length_map, length_seq, Hlen, Nat.eqb_refl. f_equal.
  unfold flat_grad at 1.
  rewrite map_map, zip_with_map_map. unfold damped_fisher_times.
  apply zip_with_ext; [|done..]. intros i y.
  unfold damped_fisher_row. f_equal.
  rewrite value_derivative_matmul. unfold flat_grad. rewrite map_map.
  reflexivity.
Qed.

End FisherFacts.



(** ** The off-policy loop *)

Section DdpgFacts.

Context {F : Type} `{Scalar F} `{DdpgCollab F}.
Variable cfg : ddpg_config F.

(** The targets of one substep, from the minibatch and the target networks. *)
Lemma learn_substep_run (s : ddpg_state) :
  let batch := fst (dc_sample (mb_size cfg) (replay s) (world s)) in
  let ob_2 := map tr_ob2 batch in
  exists s',
    learn_substep cfg s
    = ([EvSample (mb_size cfg);
        EvCriticStep
          (zip3_with (td_target cfg) (map tr_rew batch) (map tr_done batch)
             (dc_critic (qf_targ s) ob_2 (dc_actor (pi_targ s) ob_2)));
        EvActorStep; EvPolyak PiTarg; EvPolyak QfTarg], Ok s')
    /\ ep_length s' = ep_length s /\ replay s' = replay s.
Proof.
  unfold learn_substep.
  destruct (dc_sample (mb_size cfg) (replay s) (world s)) as [batch w1]. simpl.
  destruct (dc_critic_step _ _ _ _) as [q_func' qf_optim'].
  destruct (dc_actor_step _ _ _ _) as [policy' pi_optim']. simpl.
  eexists. split; [reflexivity|]. by simpl.
Qed.

Lemma learn_loop_run (n : nat) : forall s : ddpg_state,
  exists s',
    result (learn_loop cfg n s) = Ok s'
    /\ ep_length s' = ep_length s /\ replay s' = replay s
    /\ map kind_of (events (learn_loop cfg n s)) = concat (replicate n substep_kinds)
    /\ stored_dones (events (learn_loop cfg n s)) = [].
Proof.
  induction n as [|n IH]; intros s; simpl.
  - by exists s.
  - destruct (learn_substep_run s) as (s1 & Hs1 & Hep1 & Hrb1).
    destruct (IH s1) as (s' & Hr & Hep & Hrb & Hk & Hd).
    exists s'. rewrite result_bind, events_bind, Hs1. simpl result. simpl events.
    cbv iota. rewrite Hr, map_app, Hk.
    repeat split; try congruence.
    unfold stored_dones in *. simpl. exact Hd.
Qed.

Lemma learn_burst_skip (done0 : bool) (s : ddpg_state) :
  (done0 || (ep_length s =? max_ep_length cfg)%Z)
  && (mb_size cfg <=? Z.of_nat (rb_size (replay s)))%Z = false ->
  learn_burst cfg done0 s = ret s.
Proof. unfold learn_burst. by intros ->. Qed.

Lemma learn_burst_run (done0 : bool) (s : ddpg_state) (n : Z) :
  (done0 || (ep_length s =? max_ep_length cfg)%Z)
  && (mb_size cfg <=? Z.of_nat (rb_size (replay s)))%Z = true ->
  to_int (of_Z (ep_length s) * updates_per_step cfg)%S = Some n ->
  map kind_of (events (learn_burst cfg done0 s))
  = concat (replicate (Z.to_nat n) substep_kinds)
  /\ stored_dones (events (learn_burst cfg done0 s)) = []
  /\ exists s', result (learn_burst cfg done0 s) = Ok s' /\ ep_length s' = 0%Z.
Proof.
  intros Hc Hn. unfold learn_burst, substep_count. rewrite Hc, Hn.
  unfold lift. cbn [bind app].
  destruct (learn_loop_run (Z.to_nat n) s) as (s' & Hr & _ & _ & Hk & Hd).
  rewrite (traced_eta (bind _ _)), events_bind, result_bind, Hr.
  simpl. rewrite app_nil_r. repeat split; [done..|].
  by exists (with_ep_length s' 0%Z).
Qed.

End DdpgFacts.




Section DdpgStoreFacts.

Context {F : Type} `{Scalar F} `{DdpgCollab F}.
Variable cfg : ddpg_config F.

Lemma stored_dones_app (l1 l2 : list ddpg_event) :
  stored_dones (l1 ++ l2) = stored_dones l1 ++ stored_dones l2.
Proof. unfold stored_dones. apply omap_app. Qed.

Lemma store_all_run (ts : list (transition F DObs DAct)) : forall i rb,
  exists rb',
    result (store_all i ts rb) = Ok rb'
    /\ stored_dones (events (store_all i ts rb)) = map tr_done ts.
Proof.
  induction ts as [|t ts IH]; intros i rb.
  - by exists rb.
  - destruct (IH (S i) (rb_store rb t)) as (rb' & Hr & Hd).
    exists rb'. cbn [store_all]. rewrite result_bind, events_bind.
    unfold emit at 1 2 3. unfold result at 1 2. unfold events at 1. cbn [fst snd].
    split; [done|].
    rewrite stored_dones_app. cbv [result snd]. cbv iota. rewrite Hd. reflexivity.
Qed.

Lemma zip5_dones (d : list F) : forall (o1 : list DObs) (a : list DAct) (r : list F)
    (o2 : list DObs),
  length o1 = length d -> length a = length d -> length r = length d ->
  length o2 = length d ->
  map tr_done (zip5 o1 a r o2 d) = d.
Proof.
  induction d as [|x d IH]; intros [|? o1] [|? a] [|? r] [|? o2]; simpl; try done.
  intros ? ? ? ?. f_equal. apply IH; lia.
Qed.

Lemma learn_burst_no_store (done0 : bool) (s : ddpg_state) :
  stored_dones (events (learn_burst cfg done0 s)) = [].
Proof.
  destruct ((done0 || (ep_length s =? max_ep_length cfg)%Z)
            && (mb_size cfg <=? Z.of_nat (rb_size (replay s)))%Z) eqn:Hc.
  - destruct (to_int (of_Z (ep_length s) * updates_per_step cfg)%S) as [n|] eqn:Hn.
    + by destruct (learn_burst_run cfg done0 s n Hc Hn) as (_ & Hd & _).
    + unfold learn_burst, substep_count. by rewrite Hc, Hn.
  - by rewrite learn_burst_skip.
Qed.

Lemma epoch_end_no_store (samples : Z) (s : ddpg_state) :
  stored_dones (events (epoch_end cfg samples s)) = [].
Proof.
  unfold epoch_end.
  destruct (epoch cfg =? 0)%Z; [done|].
  destruct (samples mod epoch cfg =? 0)%Z; [|done].
  by destruct (save_due _ _).
Qed.

End DdpgStoreFacts.




Section DdpgTotal.

Context {F : Type} `{Scalar F} `{DdpgCollab F}.
Variable cfg : ddpg_config F.

Hypothesis capacity_positive : (0 < replay_size cfg)%Z.
Hypothesis save_interval_nonzero : ddpg_save_interval cfg <> 0%Z.
Hypothesis epoch_nonzero : epoch cfg <> 0%Z.
Hypothesis env_nonempty : forall acts w,
  exists obs2 rews d0 rest w', dc_env_step acts w = (obs2, rews, d0 :: rest, w').
Hypothesis int_defined : forall z,
  (0 <= z <= total_steps cfg)%Z -> to_int (of_Z z * updates_per_step cfg)%S <> None.

Lemma epoch_end_ok (samples : Z) (s : ddpg_state) :
  exists s', result (epoch_end cfg samples s) = Ok s' /\ ep_length s' = ep_length s.
Proof.
  unfold epoch_end. destruct (Z.eqb_spec (epoch cfg) 0); [done|].
  destruct (samples mod epoch cfg =? 0)%Z; [|simpl; eauto].
  destruct (save_due_ok (ddpg_save_interval cfg) (samples / epoch cfg)
              save_interval_nonzero) as [b ->].
  simpl. eauto.
Qed.

Lemma learn_burst_ok (done0 : bool) (s : ddpg_state) :
  (0 <= ep_length s <= total_steps cfg)%Z ->
  exists s', result (learn_burst cfg done0 s) = Ok s'
             /\ (ep_length s' = ep_length s \/ ep_length s' = 0%Z).
Proof.
  intros Hep.
  destruct ((done0 || (ep_length s =? max_ep_length cfg)%Z)
            && (mb_size cfg <=? Z.of_nat (rb_size (replay s)))%Z) eqn:Hc.
  - destruct (to_int (of_Z (ep_length s) * updates_per_step cfg)%S) as [n|] eqn:Hn.
    + destruct (learn_burst_run cfg done0 s n Hc Hn) as (_ & _ & s' & Hr & H0').
      exists s'. auto.
    + by destruct (int_defined _ Hep).
  - rewrite learn_burst_skip by done. exists s. auto.
Qed.

Lemma ddpg_step_ok (samples : Z) (s : ddpg_state) :
  (0 <= ep_length s < total_steps cfg)%Z ->
  exists s', result (ddpg_step cfg samples s) = Ok s'
             /\ (0 <= ep_length s' <= ep_length s + 1)%Z.
Proof.
  intros Hep. unfold ddpg_step.
  destruct (if (samples <=? start_steps cfg)%Z then _ else _) as [acts w1].
  destruct (env_nonempty acts w1) as (obs2 & rews & d0 & rest & w2 & ->).
  unfold mask_cutoff, lift.
  rewrite result_bind. simpl result at 1. cbv iota.
  rewrite result_bind. simpl result at 1. cbv iota.
  destruct (store_all_run
              (zip5 (obs1 s) acts rews obs2
                 (map of_bool ((if (ep_length s + 1 =? max_ep_length cfg)%Z
                                then false else d0) :: rest))) 0 (replay s))
    as (rb & Hrb & _).
  rewrite result_bind, Hrb. cbv iota.
  rewrite result_bind.
  match goal with |- context [learn_burst cfg ?d ?s1] =>
    destruct (learn_burst_ok d s1) as (s2 & Hr2 & Hep2); [simpl; lia|] end.
  rewrite Hr2.
  destruct (epoch_end_ok samples s2) as (s3 & Hr3 & Hep3).
  exists s3. split; [done|]. simpl in Hep2. lia.
Qed.

Lemma ddpg_loop_ok (l : list Z) : forall s : ddpg_state,
  (0 <= ep_length s)%Z ->
  (ep_length s + Z.of_nat (length l) <= total_steps cfg)%Z ->
  exists s', result (ddpg_loop cfg l s) = Ok s'.
Proof.
  induction l as [|k l IH]; intros s H0' Hle.
  - by exists s.
  - cbn [length] in Hle. rewrite Nat2Z.inj_succ in Hle.
    destruct (ddpg_step_ok k s) as (s1 & Hr1 & Hep1); [lia|].
    cbn [ddpg_loop]. rewrite result_bind, Hr1. apply IH; lia.
Qed.

Lemma ddpg_ok reset_obs policy0 q_func0 pi_optim0 qf_optim0 w :
  exists s', result (ddpg cfg reset_obs policy0 q_func0 pi_optim0 qf_optim0 w) = Ok s'.
Proof.
  unfold ddpg, rb_new.
  destruct (Z.ltb_spec 0 (replay_size cfg)) as [_|Hle]; [|lia].
  destruct (save_due_ok (ddpg_save_interval cfg) 0 save_interval_nonzero) as [b ->].
  rewrite bind_lift_ok, result_bind_emit, bind_lift_ok, result_bind_emit.
  rewrite py_range_from_one, bind_lift_ok.
  destruct (Z_lt_le_dec (total_steps cfg) 0) as [Hneg|Hpos].
  - rewrite (Z2Nat.nonpos (total_steps cfg)) by lia. simpl. eauto.
  - apply ddpg_loop_ok; cbn [ep_length]; [lia|].
    rewrite length_map, length_seq. lia.
Qed.

End DdpgTotal.

Lemma natural_iteration_head {F : Type} `{Scalar F} `{NaturalCollab F}
    (cfg : natural_config F) (policy val_fn : params) (samples : Z)
    (s : natural_state) :
  exists rest,
    events (natural_iteration cfg policy val_fn samples s)
    = NCollect :: NComputePgVars (nat_gamma cfg) (nat_gaelam cfg) :: rest.
Proof.
  unfold natural_iteration. rewrite events_bind_emit.
  destruct (nc_collect _ _) as [trajs w1].
  rewrite events_bind_emit. eauto.
Qed.

(** C7, amended.  Neither entry point checks the range of the discount.
    Whenever the rest of the configuration lets a run of [ddpg] go through -
    a buffer capacity that [ReplayBuffer] accepts, a save interval and a
    snapshot period that are not zero, an environment that reports at least
    one done flag per step, [int(ep_length * updates_per_step)] defined up
    to [total_steps] - the run raises nothing for any [gamma] whatever; each
    regression target is [rew + gamma * (1 - done) * Q'] with [gamma] as
    given; a minibatch size above the buffer's current size raises nothing
    either, the learning burst is skipped; and [natural] hands [gamma] and
    [gaelam] unchanged to [compute_pg_vars] once the samples are collected.
    A capacity that is not positive stops [ddpg] where the buffer is built,
    before anything else happens. *)
Theorem entry_points_do_not_check_gamma {F : Type} `{Scalar F} `{DdpgCollab F}
    `{NaturalCollab F} (cfg : ddpg_config F) (ncfg : natural_config F) :
  ((0 < replay_size cfg)%Z ->
   ddpg_save_interval cfg <> 0%Z ->
   epoch cfg <> 0%Z ->
   (forall acts w, exists obs2 rews d0 rest w',
       dc_env_step acts w = (obs2, rews, d0 :: rest, w')) ->
   (forall z, (0 <= z <= total_steps cfg)%Z ->
       to_int (of_Z z * updates_per_step cfg)%S <> None) ->
   forall g reset_obs policy0 q_func0 pi_optim0 qf_optim0 w,
     exists s', result (ddpg (with_gamma cfg g) reset_obs policy0 q_func0
                          pi_optim0 qf_optim0 w) = Ok s')
  /\ (forall g s,
        let batch := fst (dc_sample (mb_size cfg) (replay s) (world s)) in
        let ob_2 := map tr_ob2 batch in
        critic_targets (events (learn_substep (with_gamma cfg g) s))
        = [zip3_with (fun rew done q => rew + g * (of_Z 1 - done) * q)%S
             (map tr_rew batch) (map tr_done batch)
             (dc_critic (qf_targ s) ob_2 (dc_actor (pi_targ s) ob_2))])
  /\ (forall done0 s,
        (Z.of_nat (rb_size (replay s)) < mb_size cfg)%Z ->
        learn_burst cfg done0 s = ret s)
  /\ (forall policy val_fn samples s,
        exists rest,
          events (natural_iteration ncfg policy val_fn samples s)
          = NCollect :: NComputePgVars (nat_gamma ncfg) (nat_gaelam ncfg) :: rest)
  /\ ((replay_size cfg <= 0)%Z ->
      forall g reset_obs policy0 q_func0 pi_optim0 qf_optim0 w,
        ddpg (with_gamma cfg g) reset_obs policy0 q_func0 pi_optim0 qf_optim0 w
        = ([], Raise ValueError)).
Proof.
  split; [|split; [|split; [|split]]].
  - intros Hcap Hsave Hepoch Henv Hint g reset_obs policy0 q_func0 pi_optim0 qf_optim0 w.
    apply (ddpg_ok (with_gamma cfg g)); assumption.
  - intros g s batch ob_2.
    destruct (learn_substep_run (with_gamma cfg g) s) as (s' & -> & _).
    reflexivity.
  - intros done0 s Hlt. apply learn_burst_skip.
    apply andb_false_iff. right. apply Z.leb_gt. exact Hlt.
  - intros policy val_fn samples s. apply natural_iteration_head.
  - intros Hcap g reset_obs policy0 q_func0 pi_optim0 qf_optim0 w.
    unfold ddpg, rb_new. cbn [with_gamma replay_size].
    destruct (Z.ltb_spec 0 (replay_size cfg)) as [Hlt|_]; [lia|].
    apply bind_lift_raise.
Qed.

Lemma entry_points_do_not_check_gamma_witness :
  (exists s', result (Fixtures.toy_ddpg_run
                        (with_gamma (Fixtures.toy_ddpg_config 1%float 1%float 1000) 2%float)) = Ok s')
  /\ critic_targets (events (learn_substep
                               (with_gamma (Fixtures.toy_ddpg_config 1%float 1%float 1000) 2%float)
                               Fixtures.toy_ddpg_state))
     = [[7]%float].
Proof.
  destruct (entry_points_do_not_check_gamma (H1 := Fixtures.toy_natural)
              (Fixtures.toy_ddpg_config 1%float 1%float 1000) Fixtures.toy_natural_config)
    as (Hrun & Htarg & _ & _ & _).
  split.
  - apply (Hrun eq_refl); [discriminate|discriminate| |].
    + intros acts w. by exists [S w], [1%float], (Nat.eqb (S w mod 3) 0), [], (S w).
    + intros z Hz. simpl in Hz.
      assert (Hcases : z = 0%Z \/ z = 1%Z \/ z = 2%Z \/ z = 3%Z) by lia.
      destruct Hcases as [-> | [-> | [-> | ->]]]; discriminate.
  - rewrite (Htarg 2%float Fixtures.toy_ddpg_state). reflexivity.
Defined.

(** C7, as stated, fails: called with [gamma = 2], outside [0, 1], [ddpg]
    raises nothing, runs its three environment steps and three learning
    substeps, and its first regression target is [1 + 2 * (1 - 0) * 3 = 7]. *)
Lemma ddpg_accepts_gamma_two :
  (2 <=? 1)%float = false
  /\ (exists s', result (Fixtures.toy_ddpg_run (Fixtures.toy_ddpg_config 2%float 1%float 1000)) = Ok s')
  /\ map kind_of (events (Fixtures.toy_ddpg_run (Fixtures.toy_ddpg_config 2%float 1%float 1000)))
     = [KSaveState; KTestPolicy; KEnvStep; KStore; KEnvStep; KStore; KEnvStep; KStore]
       ++ concat (replicate 3 substep_kinds)
  /\ critic_targets (events (Fixtures.toy_ddpg_run (Fixtures.toy_ddpg_config 2%float 1%float 1000)))
     = [[7]; [7.04]; [7.0802000000000005]]%float.
Proof.
  split; [reflexivity|]. split; [eexists; vm_compute; reflexivity|].
  split; reflexivity.
Qed.

(** ** More on the solver *)

Lemma conjugate_gradient_traced_unfold {F : Type} `{Scalar F}
    (f_Ax : vec F -> vec F) (residual_tol : F) (b : vec F) (cg_iters : nat) :
  conjugate_gradient_traced f_Ax residual_tol b cg_iters
  = cg_loop f_Ax residual_tol cg_iters (vars_of (cg_init b)).
Proof.
  unfold conjugate_gradient_traced, dot. rewrite Nat.eqb_refl.
  by rewrite bind_ret_l.
Qed.

Section ConjugateGradientTrace.

Context {F : Type} `{Scalar F}.
Variable f_Ax : vec F -> vec F.
Variable residual_tol : F.
Variable b : vec F.
Hypothesis f_size : forall p, length p = length b -> length (f_Ax p) = length b.

Lemma matvec_calls_app (l1 l2 : list (cg_event F)) :
  matvec_calls (l1 ++ l2) = matvec_calls l1 ++ matvec_calls l2.
Proof. apply omap_app. Qed.

Lemma divisions_app (l1 l2 : list (cg_event F)) :
  divisions (l1 ++ l2) = divisions l1 ++ divisions l2.
Proof. apply omap_app. Qed.

Lemma cg_loop_calls n : forall k,
  let stop := cg_stop_from f_Ax residual_tol b k n in
  matvec_calls (events (cg_loop f_Ax residual_tol n (vars_of (cg_iterate_at f_Ax b k))))
  = map (fun j => it_p (cg_iterate_at f_Ax b j)) (seq k (stop - k))
  /\ length (divisions
       (events (cg_loop f_Ax residual_tol n (vars_of (cg_iterate_at f_Ax b k)))))
     = 2 * (stop - k).
Proof.
  induction n as [|n IH]; intros k; cbn [cg_loop cg_stop_from].
  - rewrite Nat.sub_diag. done.
  - rewrite events_bind.
    rewrite (cg_body_refines f_Ax b f_size _ (sized_iterate f_Ax b f_size k)).
    cbn [events result fst snd].
    rewrite matvec_calls_app, divisions_app, length_app.
    change (cg_recurrence f_Ax (cg_iterate_at f_Ax b k)) with (cg_iterate_at f_Ax b (S k)).
    unfold cg_converged.
    change (cg_rdotr (vars_of (cg_iterate_at f_Ax b (S k))))
      with (dotT (it_r (cg_iterate_at f_Ax b (S k))) (it_r (cg_iterate_at f_Ax b (S k)))).
    destruct (fltb _ residual_tol) eqn:Hc.
    + replace (S k - k) with 1 by lia. done.
    + destruct (IH (S k)) as [Hcalls Hdiv].
      pose proof (cg_stop_from_bounds f_Ax residual_tol b n (S k)) as [Hb _].
      rewrite Hcalls, Hdiv.
      replace (cg_stop_from f_Ax residual_tol b (S k) n - k)
        with (S (cg_stop_from f_Ax residual_tol b (S k) n - S k)) by lia.
      split; [done|]. simpl. lia.
Qed.

Lemma cg_stop_from_stable n : forall k m,
  cg_stop_from f_Ax residual_tol b k n < k + n -> n <= m ->
  cg_stop_from f_Ax residual_tol b k m = cg_stop_from f_Ax residual_tol b k n.
Proof.
  induction n as [|n IH]; intros k m Hlt Hle; [simpl in Hlt; lia|].
  destruct m as [|m]; [lia|]. simpl in *.
  destruct (cg_converged _ _ _ (S k)); [done|].
  apply IH; lia.
Qed.

End ConjugateGradientTrace.

(** X1.  On a product that keeps the size of [b], the solver calls [f_Ax]
    once per iteration it performs, on the successive search directions and
    on nothing else, and divides twice per iteration: never more than
    [cg_iters] calls, and none at all for a budget of zero. *)
Theorem conjugate_gradient_calls {F : Type} `{Scalar F}
    (f_Ax : vec F -> vec F) (residual_tol : F) (b : vec F) (cg_iters : nat) :
  (forall p, length p = length b -> length (f_Ax p) = length b) ->
  let k := cg_stop f_Ax residual_tol b cg_iters in
  matvec_calls (events (conjugate_gradient_traced f_Ax residual_tol b cg_iters))
  = map (fun j => it_p (cg_iterate_at f_Ax b j)) (seq 0 k)
  /\ length (divisions (events (conjugate_gradient_traced f_Ax residual_tol b cg_iters)))
     = 2 * k
  /\ k <= cg_iters.
Proof.
  intros Hf k. subst k. unfold cg_stop.
  pose proof (cg_stop_from_bounds f_Ax residual_tol b cg_iters 0) as [Hb _].
  destruct (cg_loop_calls f_Ax residual_tol b Hf cg_iters 0) as [Hcalls Hdiv].
  rewrite Nat.sub_0_r in Hcalls, Hdiv.
  rewrite conjugate_gradient_traced_unfold.
  split; [exact Hcalls|]. split; [exact Hdiv|lia].
Qed.

Lemma conjugate_gradient_calls_witness :
  matvec_calls (events (conjugate_gradient_traced (Fixtures.diag Fixtures.b123)
                          residual_tol_default Fixtures.b123 10))
  = map (fun j => it_p (cg_iterate_at (Fixtures.diag Fixtures.b123) Fixtures.b123 j))
      (seq 0 (cg_stop (Fixtures.diag Fixtures.b123) residual_tol_default Fixtures.b123 10))
  /\ length (divisions (events (conjugate_gradient_traced (Fixtures.diag Fixtures.b123)
                                 residual_tol_default Fixtures.b123 10)))
     = 2 * cg_stop (Fixtures.diag Fixtures.b123) residual_tol_default Fixtures.b123 10
  /\ cg_stop (Fixtures.diag Fixtures.b123) residual_tol_default Fixtures.b123 10 <= 10.
Proof.
  apply (conjugate_gradient_calls (Fixtures.diag Fixtures.b123)
           residual_tol_default Fixtures.b123 10).
  intros p Hp. unfold Fixtures.diag. rewrite length_zip_with, Hp. reflexivity.
Defined.

(** X2.  When [f_Ax(b)] has another size than [b], a solver with a budget of
    at least one iteration raises the size mismatch of [torch.dot] right
    after its first call to [f_Ax], before any division. *)
Theorem conjugate_gradient_size_mismatch {F : Type} `{Scalar F}
    (f_Ax : vec F -> vec F) (residual_tol : F) (b : vec F) (cg_iters : nat) :
  length (f_Ax b) <> length b ->
  1 <= cg_iters ->
  conjugate_gradient_traced f_Ax residual_tol b cg_iters
  = ([EvMatVec b], Raise ShapeError).
Proof.
  intros Hne Hn. destruct cg_iters as [|n]; [lia|].
  unfold conjugate_gradient_traced. unfold dot at 1. rewrite Nat.eqb_refl.
  unfold ret at 1. cbn [bind app cg_loop].
  unfold cg_body, call_f. cbn [bind emit ret app cg_p].
  unfold dot at 1.
  destruct (Nat.eqb_spec (length b) (length (f_Ax b))) as [Heq|_]; [congruence|].
  reflexivity.
Qed.

Lemma conjugate_gradient_size_mismatch_witness :
  conjugate_gradient_traced (fun p : vec float => 0%float :: p) residual_tol_default
    Fixtures.b123 10
  = ([EvMatVec Fixtures.b123], Raise ShapeError).
Proof.
  apply (conjugate_gradient_size_mismatch (fun p : vec float => 0%float :: p)
           residual_tol_default Fixtures.b123 10).
  - simpl. lia.
  - lia.
Defined.

(** X3.  Once the solver has stopped on its tolerance before the end of its
    budget, a larger budget returns the same vector. *)
Theorem conjugate_gradient_budget_stable {F : Type} `{Scalar F}
    (f_Ax : vec F -> vec F) (residual_tol : F) (b : vec F) (cg_iters more : nat) :
  (forall p, length p = length b -> length (f_Ax p) = length b) ->
  cg_stop f_Ax residual_tol b cg_iters < cg_iters ->
  cg_iters <= more ->
  conjugate_gradient f_Ax residual_tol b more
  = conjugate_gradient f_Ax residual_tol b cg_iters.
Proof.
  intros Hf Hlt Hle.
  rewrite !conjugate_gradient_unfold by done.
  change (cg_init b) with (cg_iterate_at f_Ax b 0).
  rewrite (cg_loop_refines f_Ax residual_tol b Hf more 0).
  rewrite (cg_loop_refines f_Ax residual_tol b Hf cg_iters 0).
  unfold cg_stop in Hlt.
  by rewrite (cg_stop_from_stable f_Ax residual_tol b cg_iters 0 more).
Qed.

Lemma conjugate_gradient_budget_stable_witness :
  conjugate_gradient (Fixtures.diag Fixtures.b123) residual_tol_default Fixtures.b123 50
  = conjugate_gradient (Fixtures.diag Fixtures.b123) residual_tol_default Fixtures.b123 10.
Proof.
  apply (conjugate_gradient_budget_stable (Fixtures.diag Fixtures.b123)
           residual_tol_default Fixtures.b123 10 50).
  - intros p Hp. unfold Fixtures.diag. rewrite length_zip_with, Hp. reflexivity.
  - vm_compute. lia.
  - lia.
Defined.

(** ** More on explained_variance_1d *)

(** X4.  On one-dimensional inputs the sizes of [y] and [ypred] are only
    compared when the variance of [y] is not close to zero: with a variance
    close to zero the result is 0 or 1 whatever the sizes; otherwise sizes
    that differ raise a size mismatch unless one of them is 1, and a
    one-element [ypred] is subtracted from every entry of [y]. *)
Theorem explained_variance_1d_sizes {F : Type} `{Scalar F}
    (tvar : vec F -> F) (ypred y : tensor F) :
  dim y = 1 -> dim ypred = 1 ->
  (isclose (tvar (data y)) (of_Z 0) = true ->
   explained_variance_1d tvar ypred y = Ok (of_Z 0)
   \/ explained_variance_1d tvar ypred y = Ok (of_Z 1))
  /\ (isclose (tvar (data y)) (of_Z 0) = false ->
      length (data y) <> length (data ypred) ->
      length (data y) <> 1 -> length (data ypred) <> 1 ->
      explained_variance_1d tvar ypred y = Raise ShapeError)
  /\ (isclose (tvar (data y)) (of_Z 0) = false ->
      forall p, data ypred = [p] -> length (data y) <> 1 ->
      explained_variance_1d tvar ypred y
      = Ok (of_Z 1 - tvar (map (fun x => x - p) (data y))
                     / (tvar (data y) + flit 1 100000000))%S).
Proof.
  intros Hy Hp. unfold explained_variance_1d. rewrite Hy, Hp. simpl.
  change (10 ^ 8)%Z with 100000000%Z.
  split; [|split].
  - intros ->. destruct (fgtb _ _); auto.
  - intros -> Hne Hy1 Hp1. unfold broadcast.
    destruct (Nat.eqb_spec (length (data y)) (length (data ypred))); [done|].
    destruct (data ypred) as [|p [|p' ps]]; destruct (data y) as [|q [|q' qs]];
      simpl in *; try done.
  - intros -> p Hpd Hy1. rewrite Hpd. unfold broadcast.
    destruct (Nat.eqb_spec (length (data y)) (length [p])) as [Heq|_];
      [simpl in Heq; lia|].
    by destruct (data y) as [|q [|q' qs]].
Qed.

Lemma explained_variance_1d_sizes_witness :
  (explained_variance_1d Fixtures.var_unbiased
     (Fixtures.tensor1 [1; 2; 3]%float) (Fixtures.tensor1 [5; 5]%float) = Ok (of_Z 0)
   \/ explained_variance_1d Fixtures.var_unbiased
        (Fixtures.tensor1 [1; 2; 3]%float) (Fixtures.tensor1 [5; 5]%float) = Ok (of_Z 1))
  /\ explained_variance_1d Fixtures.var_unbiased
       (Fixtures.tensor1 [1; 2; 3]%float) (Fixtures.tensor1 [5; 6]%float)
     = Raise ShapeError.
Proof.
  split.
  - apply (explained_variance_1d_sizes Fixtures.var_unbiased
             (Fixtures.tensor1 [1; 2; 3]%float) (Fixtures.tensor1 [5; 5]%float));
      reflexivity.
  - apply (explained_variance_1d_sizes Fixtures.var_unbiased
             (Fixtures.tensor1 [1; 2; 3]%float) (Fixtures.tensor1 [5; 6]%float));
      try reflexivity; simpl; lia.
Defined.

(** ** set_global_seeds *)

(** X5.  A seed that [numpy.random.seed] accepts is given to the three
    generators and returned; any other seed raises there, before the two
    other generators are seeded.  With no seed, the draw over
    [0 .. 2**32], both ends included, is used: drawn below [2**32] it seeds
    the three generators, drawn at [2**32] it is refused. *)
Theorem set_global_seeds_cases (randint : Z) (seed : option Z) :
  (0 <= randint <= 2 ^ 32)%Z ->
  (forall s, seed = Some s -> (0 <= s < 2 ^ 32)%Z ->
     set_global_seeds randint seed = ([SeedNumpy s; SeedRandom s; SeedTorch s], Ok s))
  /\ (forall s, seed = Some s -> ~ (0 <= s < 2 ^ 32)%Z ->
        set_global_seeds randint seed = ([], Raise ValueError))
  /\ (seed = None -> (randint < 2 ^ 32)%Z ->
      set_global_seeds randint seed
      = ([DrawRandint 0 (2 ^ 32); SeedNumpy randint; SeedRandom randint;
          SeedTorch randint], Ok randint))
  /\ (seed = None -> randint = (2 ^ 32)%Z ->
      set_global_seeds randint seed = ([DrawRandint 0 (2 ^ 32)], Raise ValueError)).
Proof.
  intros Hr. unfold set_global_seeds, np_random_seed, random_seed, torch_manual_seed.
  split; [|split; [|split]].
  - intros s -> Hs. rewrite bind_ret_l.
    destruct (Z.leb_spec 0 s); [|lia]. destruct (Z.ltb_spec s (2 ^ 32)); [|lia].
    reflexivity.
  - intros s -> Hs. rewrite bind_ret_l.
    destruct (Z.leb_spec 0 s); destruct (Z.ltb_spec s (2 ^ 32)); try reflexivity. lia.
  - intros -> Hlt. cbn [bind emit ret app].
    destruct (Z.leb_spec 0 randint); [|lia].
    destruct (Z.ltb_spec randint (2 ^ 32)); [|lia].
    reflexivity.
  - intros -> ->. reflexivity.
Qed.

Lemma set_global_seeds_cases_witness :
  set_global_seeds 4294967296 (Some 7%Z)
  = ([SeedNumpy 7; SeedRandom 7; SeedTorch 7], Ok 7%Z)
  /\ set_global_seeds 4294967296 None
     = ([DrawRandint 0 (2 ^ 32)], Raise ValueError).
Proof.
  destruct (set_global_seeds_cases 4294967296 (Some 7%Z)) as (H1 & _); [lia|].
  destruct (set_global_seeds_cases 4294967296 None) as (_ & _ & _ & H4); [lia|].
  split; [apply H1; [reflexivity|lia]|apply H4; reflexivity].
Defined.

(** ** More on the natural-gradient loop *)

Section NaturalRun.

Context {F : Type} `{Scalar F} `{NaturalCollab F}.
Variable cfg : natural_config F.
Variables policy val_fn : params.

Lemma natural_step_solver_raise batch subsamp_obs (sigma : gmap loc (vec F)) e :
  let theta := parameters_to_vector policy sigma in
  let g := nc_policy_gradient theta batch in
  nc_conjugate_gradient (fun v => nc_fisher_vec_prod v subsamp_obs theta) g = Raise e ->
  natural_step cfg policy batch subsamp_obs sigma = ([NSolve g], Raise e).
Proof. intros theta g Hcg. unfold natural_step. fold theta. fold g. by rewrite Hcg. Qed.

Lemma natural_step_size_mismatch batch subsamp_obs (sigma : gmap loc (vec F)) x :
  let theta := parameters_to_vector policy sigma in
  let g := nc_policy_gradient theta batch in
  nc_conjugate_gradient (fun v => nc_fisher_vec_prod v subsamp_obs theta) g = Ok x ->
  length x <> length g ->
  natural_step cfg policy batch subsamp_obs sigma = ([NSolve g], Raise ShapeError).
Proof.
  intros theta g Hcg Hne. unfold natural_step. fold theta. fold g. rewrite Hcg.
  cbn [bind emit lift app]. unfold dot.
  destruct (Nat.eqb_spec (length g) (length x)); [congruence|]. reflexivity.
Qed.

Lemma natural_step_kinds batch subsamp_obs (sigma sigma' : gmap loc (vec F)) :
  result (natural_step cfg policy batch subsamp_obs sigma) = Ok sigma' ->
  exists g new_params,
    events (natural_step cfg policy batch subsamp_obs sigma)
    = [NSolve g; NPolicyUpdate new_params]
    /\ vector_to_parameters new_params policy sigma = Ok sigma'.
Proof.
  unfold natural_step.
  set (theta := parameters_to_vector policy sigma).
  set (g := nc_policy_gradient theta batch).
  destruct (nc_conjugate_gradient _ g) as [x|e]; [|done].
  cbn [bind emit lift app]. unfold dot.
  destruct (Nat.eqb (length g) (length x)); [|done].
  cbn [bind ret app].
  destruct (broadcast fsub theta _) as [new_params|e]; [|done].
  cbn [bind emit lift app].
  destruct (vector_to_parameters new_params policy sigma) as [s1|e] eqn:Hw; [|done].
  cbn [result events fst snd]. intros [= <-]. eauto.
Qed.

Lemma value_regression_kinds batch iters : forall s s' : natural_state,
  result (value_regression val_fn iters batch s) = Ok s' ->
  events (value_regression val_fn iters batch s) = replicate iters NValueStep.
Proof.
  induction iters as [|k IH]; intros s s' Hr; [done|].
  cbn [value_regression] in *. rewrite result_bind in Hr. rewrite events_bind.
  unfold value_step in *. destruct (nc_val_step _ _ _) as [w' opt'].
  rewrite result_bind_emit in Hr. rewrite events_bind_emit, result_bind_emit.
  destruct (vector_to_parameters w' val_fn (ns_store s)) as [s1|e]; [|done].
  rewrite bind_lift_ok in *. cbn [events result ret fst snd app] in *.
  by rewrite (IH _ _ Hr).
Qed.

(** The steps of one successful pass, in order. *)
Lemma natural_iteration_run (samples : Z) (s s' : natural_state) :
  result (natural_iteration cfg policy val_fn samples s) = Ok s' ->
  exists batch subsamp_obs sigma1 w g new_params,
    events (natural_iteration cfg policy val_fn samples s)
    = [NCollect; NComputePgVars (nat_gamma cfg) (nat_gaelam cfg); NSolve g;
       NPolicyUpdate new_params]
      ++ replicate (nat_val_iters cfg) NValueStep
      ++ [NSaveState (samples / (nat_steps cfg * nat_n_envs cfg))]
    /\ natural_step cfg policy batch subsamp_obs (ns_store s)
       = ([NSolve g; NPolicyUpdate new_params], Ok sigma1)
    /\ result (value_regression val_fn (nat_val_iters cfg) batch
                 {| ns_store := sigma1; ns_val_optim := ns_val_optim s;
                    ns_world := w |}) = Ok s'.
Proof.
  unfold natural_iteration. rewrite result_bind_emit, events_bind_emit.
  destruct (nc_collect _ _) as [trajs w1].
  rewrite result_bind_emit, events_bind_emit.
  destruct (nc_compute_pg_vars _ _ _ _) as [batch|e]; [|done].
  rewrite bind_lift_ok.
  destruct (subsample cfg (nc_all_obs batch) w1) as [[subsamp_obs w2]|e]; [|done].
  rewrite bind_lift_ok.
  rewrite result_bind, events_bind.
  destruct (result (natural_step cfg policy batch subsamp_obs (ns_store s)))
    as [sigma1|e] eqn:Hstep; [|done].
  destruct (natural_step_kinds batch subsamp_obs _ _ Hstep)
    as (g & new_params & Hev & Hw).
  rewrite Hev. rewrite result_bind, events_bind.
  destruct (result (value_regression val_fn (nat_val_iters cfg) batch _))
    as [s2|e] eqn:Hval; [|done].
  rewrite (value_regression_kinds _ _ _ _ Hval).
  rewrite result_bind_emit, events_bind_emit.
  destruct (save_due _ _) as [b|e]; [|done].
  rewrite bind_lift_ok.
  cbn [result events ret fst snd]. intros [= <-].
  exists batch, subsamp_obs, sigma1, w2, g, new_params.
  split; [reflexivity|]. split; [|done].
  rewrite (traced_eta (natural_step _ _ _ _ _)). by rewrite Hev, Hstep.
Qed.

Lemma natural_save_indices_app (l1 l2 : list (@natural_event F)) :
  natural_save_indices (l1 ++ l2) = natural_save_indices l1 ++ natural_save_indices l2.
Proof. apply omap_app. Qed.

Lemma natural_save_indices_value_steps (n : nat) :
  natural_save_indices (replicate n (@NValueStep F)) = [].
Proof. induction n as [|n IH]; [done|exact IH]. Qed.

Lemma natural_loop_run (l : list Z) : forall s s' : natural_state,
  result (natural_loop cfg policy val_fn l s) = Ok s' ->
  natural_save_indices (events (natural_loop cfg policy val_fn l s))
  = map (fun k => (k / (nat_steps cfg * nat_n_envs cfg))%Z) l
  /\ length (events (natural_loop cfg policy val_fn l s))
     = length l * (nat_val_iters cfg + 5).
Proof.
  induction l as [|k l IH]; intros s s' Hr; [done|].
  cbn [natural_loop] in *. rewrite result_bind in Hr. rewrite events_bind.
  destruct (result (natural_iteration cfg policy val_fn k s)) as [s1|e] eqn:Hit; [|done].
  destruct (natural_iteration_run k s s1 Hit)
    as (batch & obs & sigma1 & w & g & np & Hev & _).
  destruct (IH _ _ Hr) as [Hidx Hlen].
  rewrite natural_save_indices_app, length_app, Hidx, Hlen, Hev.
  rewrite !natural_save_indices_app, natural_save_indices_value_steps.
  rewrite !length_app, length_replicate. split; [done|]. simpl. lia.
Qed.


End NaturalRun.

(** X6.  When the solver raises, or returns a direction of another size than
    the gradient, the step raises in turn - the size mismatch at the inner
    product [g . x] - after the solve and before anything is written. *)
Theorem natural_step_failures {F : Type} `{Scalar F} `{NaturalCollab F}
    (cfg : natural_config F) (policy : params) (batch : NBatch)
    (subsamp_obs : NObs) (sigma : gmap loc (vec F)) :
  let theta := parameters_to_vector policy sigma in
  let g := nc_policy_gradient theta batch in
  (forall e,
     nc_conjugate_gradient (fun v => nc_fisher_vec_prod v subsamp_obs theta) g = Raise e ->
     natural_step cfg policy batch subsamp_obs sigma = ([NSolve g], Raise e))
  /\ (forall x,
        nc_conjugate_gradient (fun v => nc_fisher_vec_prod v subsamp_obs theta) g = Ok x ->
        length x <> length g ->
        natural_step cfg policy batch subsamp_obs sigma = ([NSolve g], Raise ShapeError)).
Proof.
  intros theta g. split.
  - intros e. apply natural_step_solver_raise.
  - intros x. apply natural_step_size_mismatch.
Qed.

(** X7.  A pass of the main loop that succeeds performs, in this order, one
    sample collection, one call of [compute_pg_vars], one solve, one write of
    the policy, [val_iters] steps of the value function and one call of
    [save_state], with index [samples // (steps * n_envs)]. *)
Theorem natural_iteration_shape {F : Type} `{Scalar F} `{NaturalCollab F}
    (cfg : natural_config F) (policy val_fn : params) (samples : Z)
    (s s' : natural_state) :
  result (natural_iteration cfg policy val_fn samples s) = Ok s' ->
  map natural_kind_of (events (natural_iteration cfg policy val_fn samples s))
  = [NKCollect; NKComputePgVars; NKSolve; NKPolicyUpdate]
    ++ replicate (nat_val_iters cfg) NKValueStep ++ [NKSaveState]
  /\ natural_save_indices (events (natural_iteration cfg policy val_fn samples s))
     = [(samples / (nat_steps cfg * nat_n_envs cfg))%Z].
Proof.
  intros Hr.
  destruct (natural_iteration_run cfg policy val_fn samples s s' Hr)
    as (batch & obs & sigma1 & w & g & np & -> & _).
  split.
  - rewrite !map_app. simpl. f_equal. f_equal. f_equal. f_equal.
    f_equal. induction (nat_val_iters cfg) as [|n IH]; [done|]. simpl. by rewrite IH.
  - rewrite !natural_save_indices_app, natural_save_indices_value_steps. reflexivity.
Qed.

Lemma natural_iteration_shape_witness :
  map natural_kind_of
    (events (natural_iteration Fixtures.toy_natural_config Fixtures.toy_policy
               Fixtures.toy_val_fn 4
               Fixtures.toy_natural_state))
  = [NKCollect; NKComputePgVars; NKSolve; NKPolicyUpdate]
    ++ replicate 2 NKValueStep ++ [NKSaveState]
  /\ natural_save_indices
       (events (natural_iteration Fixtures.toy_natural_config Fixtures.toy_policy
                  Fixtures.toy_val_fn 4
                  Fixtures.toy_natural_state))
     = [2%Z].
Proof.
  destruct (result (natural_iteration Fixtures.toy_natural_config Fixtures.toy_policy
                      Fixtures.toy_val_fn 4
                      Fixtures.toy_natural_state)) as [s'|e] eqn:Hr;
    [|by vm_compute in Hr].
  exact (natural_iteration_shape Fixtures.toy_natural_config Fixtures.toy_policy
           Fixtures.toy_val_fn 4 Fixtures.toy_natural_state s' Hr).
Defined.

Lemma natural_step_failures_witness :
  natural_step (H0 := Fixtures.short_natural) Fixtures.toy_natural_config
    Fixtures.toy_policy Fixtures.short_batch Fixtures.short_obs Fixtures.toy_store
  = ([NSolve [2; 4; 6]%float], Raise ShapeError).
Proof.
  apply (proj2 (natural_step_failures (H0 := Fixtures.short_natural)
                  Fixtures.toy_natural_config Fixtures.toy_policy Fixtures.short_batch
                  Fixtures.short_obs Fixtures.toy_store) [1%float]).
  - reflexivity.
  - intros Hlen. vm_compute in Hlen. discriminate.
Defined.

(** X8.  With [steps * n_envs = 0] the loop raises the [ValueError] of a
    [range] with step zero before anything is collected.  With a positive
    product, a run that succeeds makes [ceil(total_steps / (steps * n_envs))]
    complete passes and calls [save_state] with the indices 1, 2, 3, ... in
    turn. *)
Theorem natural_run_iterations {F : Type} `{Scalar F} `{NaturalCollab F}
    (cfg : natural_config F) (policy val_fn : params) (s : natural_state) :
  let stp := (nat_steps cfg * nat_n_envs cfg)%Z in
  (stp = 0%Z -> natural cfg policy val_fn s = ([], Raise ValueError))
  /\ ((0 < stp)%Z -> forall s',
        result (natural cfg policy val_fn s) = Ok s' ->
        let n := Z.to_nat ((nat_total_steps cfg + stp - 1) / stp) in
        natural_save_indices (events (natural cfg policy val_fn s))
        = map (fun k => Z.of_nat (S k)) (seq 0 n)
        /\ length (events (natural cfg policy val_fn s)) = n * (nat_val_iters cfg + 5)).
Proof.
  intros stp. unfold natural, py_range. subst stp.
  remember (nat_steps cfg * nat_n_envs cfg)%Z as stp eqn:Hstp. split.
  - intros ->. reflexivity.
  - intros Hpos s' Hr.
    destruct (Z.eqb_spec stp 0) as [Hz|Hnz]; [lia|].
    destruct (Z.ltb_spec 0 stp) as [Hlt|Hge]; [|lia].
    replace ((nat_total_steps cfg + stp - stp + stp - 1) / stp)%Z
      with ((nat_total_steps cfg + stp - 1) / stp)%Z in * by (f_equal; lia).
    set (n := Z.to_nat ((nat_total_steps cfg + stp - 1) / stp)) in *.
    rewrite bind_lift_ok in *.
    destruct (natural_loop_run cfg policy val_fn _ _ _ Hr) as [Hidx Hlen].
    rewrite <- Hstp in Hidx. rewrite Hidx, Hlen, length_map, length_seq.
    split; [|done].
    rewrite map_map. apply map_ext. intros k.
    replace (stp + Z.of_nat k * stp)%Z with (Z.of_nat (S k) * stp)%Z by lia.
    apply Z.div_mul. lia.
Qed.

Lemma natural_run_iterations_witness :
  natural_save_indices
    (events (natural Fixtures.toy_natural_config Fixtures.toy_policy Fixtures.toy_val_fn
               Fixtures.toy_natural_state))
  = [1; 2]%Z
  /\ length (events (natural Fixtures.toy_natural_config Fixtures.toy_policy
                       Fixtures.toy_val_fn Fixtures.toy_natural_state))
     = 2 * (2 + 5).
Proof.
  destruct (result (natural Fixtures.toy_natural_config Fixtures.toy_policy
                      Fixtures.toy_val_fn Fixtures.toy_natural_state))
    as [s'|e] eqn:Hr; [|by vm_compute in Hr].
  refine (proj2 (natural_run_iterations Fixtures.toy_natural_config Fixtures.toy_policy
                   Fixtures.toy_val_fn Fixtures.toy_natural_state) _ s' Hr).
  simpl. lia.
Defined.

(** X9.  After a pass that succeeds, for a policy without shared parameters,
    a value function that shares none with it and gradients of the size of
    the parameters, the policy reads back as the very vector the step wrote:
    the value regression of the same pass has not changed it. *)
Theorem natural_iteration_policy_readback {F : Type} `{Scalar F} `{NaturalCollab F}
    (cfg : natural_config F) (policy val_fn : params) (samples : Z)
    (s s' : natural_state) :
  NoDup policy ->
  (forall l, l ∈ val_fn -> l ∉ policy) ->
  (forall theta batch, length (nc_policy_gradient theta batch) = length theta) ->
  result (natural_iteration cfg policy val_fn samples s) = Ok s' ->
  NPolicyUpdate (parameters_to_vector policy (ns_store s'))
  ∈ events (natural_iteration cfg policy val_fn samples s).
Proof.
  intros Hnd Hdisj Hgrad Hr.
  destruct (natural_iteration_run cfg policy val_fn samples s s' Hr)
    as (batch & obs & sigma1 & w & g & np & Hev & Hstep & Hval).
  assert (Hread : parameters_to_vector policy sigma1 = np).
  { set (theta := parameters_to_vector policy (ns_store s)) in *.
    destruct (nc_conjugate_gradient
                (fun v => nc_fisher_vec_prod v obs theta)
                (nc_policy_gradient theta batch)) as [x|e] eqn:Hcg.
    - destruct (decide (length x = length (nc_policy_gradient theta batch)))
        as [Hlen|Hlen].
      + assert (Hth : length theta = length x).
        { rewrite Hlen. symmetry. apply Hgrad. }
        destruct (natural_step_run cfg policy batch obs (ns_store s) x Hcg
                    (eq_sym Hlen) Hth Hnd) as (sigma' & Hrun & Hrb).
        rewrite Hrun in Hstep. injection Hstep as <- <- <-. exact Hrb.
      + rewrite (natural_step_size_mismatch cfg policy batch obs (ns_store s) x Hcg Hlen)
          in Hstep. done.
    - rewrite (natural_step_solver_raise cfg policy batch obs (ns_store s) e Hcg)
        in Hstep. done. }
  assert (Hsame : parameters_to_vector policy (ns_store s')
                  = parameters_to_vector policy sigma1).
  { apply parameters_to_vector_ext. intros l Hl.
    apply (value_regression_frame val_fn batch _ _ _ Hval l).
    intros Hin. exact (Hdisj l Hin Hl). }
  rewrite Hsame, Hread, Hev.
  apply list_elem_of_In. simpl. auto.
Qed.

Lemma natural_iteration_policy_readback_witness :
  exists s',
    result (natural_iteration Fixtures.toy_natural_config Fixtures.toy_policy
              Fixtures.toy_val_fn 2 Fixtures.toy_natural_state) = Ok s'
    /\ NPolicyUpdate (parameters_to_vector Fixtures.toy_policy (ns_store s'))
       ∈ events (natural_iteration Fixtures.toy_natural_config Fixtures.toy_policy
                   Fixtures.toy_val_fn 2 Fixtures.toy_natural_state).
Proof.
  destruct (result (natural_iteration Fixtures.toy_natural_config Fixtures.toy_policy
                      Fixtures.toy_val_fn 2 Fixtures.toy_natural_state))
    as [s'|e] eqn:Hr; [|by vm_compute in Hr].
  exists s'. split; [done|].
  apply (natural_iteration_policy_readback Fixtures.toy_natural_config
           Fixtures.toy_policy Fixtures.toy_val_fn 2 Fixtures.toy_natural_state s').
  - unfold Fixtures.toy_policy. apply NoDup_cons. split.
    + intros Hin. apply list_elem_of_In in Hin. simpl in Hin. lia.
    + apply NoDup_singleton.
  - intros l Hl Hp. apply list_elem_of_In in Hl, Hp. simpl in Hl, Hp. lia.
  - intros theta batch. simpl. apply length_map.
  - exact Hr.
Defined.

(** ** More on the off-policy loop *)

Section DdpgRun.

Context {F : Type} `{Scalar F} `{DdpgCollab F}.
Variable cfg : ddpg_config F.

Lemma env_steps_app (l1 l2 : list ddpg_event) :
  env_steps (l1 ++ l2) = env_steps l1 ++ env_steps l2.
Proof. apply omap_app. Qed.

Lemma learn_substep_frame (s : ddpg_state) :
  exists s',
    result (learn_substep cfg s) = Ok s'
    /\ obs1 s' = obs1 s /\ replay s' = replay s /\ ep_length s' = ep_length s
    /\ env_steps (events (learn_substep cfg s)) = []
    /\ stored_dones (events (learn_substep cfg s)) = [].
Proof.
  unfold learn_substep.
  destruct (dc_sample (mb_size cfg) (replay s) (world s)) as [batch w1]. simpl.
  destruct (dc_critic_step _ _ _ _) as [q_func' qf_optim'].
  destruct (dc_actor_step _ _ _ _) as [policy' pi_optim']. simpl.
  eexists. split; [reflexivity|]. by simpl.
Qed.

Lemma learn_loop_frame (n : nat) : forall s : ddpg_state,
  exists s',
    result (learn_loop cfg n s) = Ok s'
    /\ obs1 s' = obs1 s /\ replay s' = replay s /\ ep_length s' = ep_length s
    /\ env_steps (events (learn_loop cfg n s)) = []
    /\ stored_dones (events (learn_loop cfg n s)) = [].
Proof.
  induction n as [|n IH]; intros s.
  - by exists s.
  - destruct (learn_substep_frame s) as (s1 & Hr1 & Ho1 & Hb1 & He1 & Hv1 & Hd1).
    destruct (IH s1) as (s' & Hr & Ho & Hb & He & Hv & Hd).
    exists s'. cbn [learn_loop]. rewrite result_bind, events_bind, Hr1.
    rewrite env_steps_app, stored_dones_app, Hv1, Hd1, Hv, Hd.
    repeat split; congruence.
Qed.

(** The burst, whenever it returns. *)
Lemma learn_burst_frame (done0 : bool) (s s' : ddpg_state) :
  result (learn_burst cfg done0 s) = Ok s' ->
  obs1 s' = obs1 s /\ replay s' = replay s
  /\ env_steps (events (learn_burst cfg done0 s)) = []
  /\ stored_dones (events (learn_burst cfg done0 s)) = []
  /\ ep_length s'
     = if (done0 || (ep_length s =? max_ep_length cfg)%Z)
          && (mb_size cfg <=? Z.of_nat (rb_size (replay s)))%Z
       then 0%Z else ep_length s.
Proof.
  unfold learn_burst, substep_count.
  destruct ((done0 || (ep_length s =? max_ep_length cfg)%Z)
            && (mb_size cfg <=? Z.of_nat (rb_size (replay s)))%Z).
  - destruct (to_int _) as [n|]; [|done].
    rewrite bind_lift_ok, result_bind, events_bind.
    destruct (learn_loop_frame (Z.to_nat n) s) as (s1 & Hr & Ho & Hb & He & Hv & Hd).
    rewrite Hr. cbn [result events ret fst snd]. intros [= <-].
    rewrite app_nil_r. by simpl.
  - cbn [result events ret fst snd]. by intros [= <-].
Qed.

Lemma store_all_quiet (ts : list (transition F DObs DAct)) : forall i rb,
  env_steps (events (store_all i ts rb)) = [].
Proof.
  induction ts as [|t ts IH]; intros i rb; [done|].
  cbn [store_all]. rewrite events_bind_emit. apply IH.
Qed.

Lemma epoch_end_frame (samples : Z) (s s' : ddpg_state) :
  result (epoch_end cfg samples s) = Ok s' ->
  ep_length s' = ep_length s /\ replay s' = replay s
  /\ env_steps (events (epoch_end cfg samples s)) = []
  /\ epoch cfg <> 0%Z.
Proof.
  unfold epoch_end. destruct (Z.eqb_spec (epoch cfg) 0); [done|].
  destruct (samples mod epoch cfg =? 0)%Z; [|cbn; by intros [= <-]].
  destruct (save_due _ _) as [b|e]; cbn; [by intros [= <-]|done].
Qed.

(** What a pass that returns has done. *)
Lemma ddpg_step_run (samples : Z) (s s' : ddpg_state) :
  result (ddpg_step cfg samples s) = Ok s' ->
  exists done0,
    env_steps (events (ddpg_step cfg samples s)) = [tt]
    /\ epoch cfg <> 0%Z
    /\ ep_length s'
       = if (done0 || (ep_length s + 1 =? max_ep_length cfg)%Z)
            && (mb_size cfg <=? Z.of_nat (rb_size (replay s')))%Z
         then 0%Z else (ep_length s + 1)%Z.
Proof.
  unfold ddpg_step.
  destruct (if (samples <=? start_steps cfg)%Z then _ else _) as [acts w1].
  destruct (dc_env_step acts w1) as [[[obs2 rews] dones] w2].
  rewrite result_bind_emit, events_bind_emit.
  destruct dones as [|d0 rest]; [done|].
  unfold mask_cutoff. rewrite bind_lift_ok.
  set (d0' := if (ep_length s + 1 =? max_ep_length cfg)%Z then false else d0).
  set (ts := zip5 (obs1 s) acts rews obs2 (map of_bool (d0' :: rest))).
  destruct (store_all_run ts 0 (replay s)) as (rb & Hrb & _).
  rewrite result_bind, events_bind, Hrb. cbv beta iota.
  rewrite result_bind, events_bind.
  destruct (result (learn_burst cfg _ _)) as [s2|e] eqn:Hburst; [|done].
  intros Hend.
  destruct (learn_burst_frame _ _ _ Hburst) as (_ & Hb2 & Hv2 & _ & Hep2).
  destruct (epoch_end_frame _ _ _ Hend) as (Hep3 & Hb3 & Hv3 & Hepoch).
  exists (hd false (d0' :: rest)).
  change (EvEnvStep :: ?l) with ([EvEnvStep] ++ l).
  rewrite !env_steps_app, store_all_quiet, Hv2, Hv3.
  split; [done|]. split; [done|].
  rewrite Hep3, Hep2, Hb3, Hb2. reflexivity.
Qed.

Lemma ddpg_loop_env_steps (l : list Z) : forall s s' : ddpg_state,
  result (ddpg_loop cfg l s) = Ok s' ->
  length (env_steps (events (ddpg_loop cfg l s))) = length l.
Proof.
  induction l as [|k l IH]; intros s s' Hr; [done|].
  cbn [ddpg_loop] in *. rewrite result_bind in Hr. rewrite events_bind.
  destruct (result (ddpg_step cfg k s)) as [s1|e] eqn:Hstep; [|done].
  destruct (ddpg_step_run k s s1 Hstep) as (d & Hv & _).
  rewrite env_steps_app, length_app, Hv, (IH _ _ Hr). reflexivity.
Qed.

End DdpgRun.

(** X10.  A run of [ddpg] that returns has stepped the environment exactly
    [total_steps] times (not at all when [total_steps] is negative). *)
Theorem ddpg_run_env_steps {F : Type} `{Scalar F} `{DdpgCollab F}
    (cfg : ddpg_config F) (reset_obs : list DObs) (policy0 q_func0 : DNet)
    (pi_optim0 qf_optim0 : DOpt) (w : DWorld) (s' : ddpg_state) :
  result (ddpg cfg reset_obs policy0 q_func0 pi_optim0 qf_optim0 w) = Ok s' ->
  length (env_steps (events (ddpg cfg reset_obs policy0 q_func0 pi_optim0 qf_optim0 w)))
  = Z.to_nat (total_steps cfg).
Proof.
  unfold ddpg.
  destruct (rb_new (replay_size cfg)) as [rb|e]; [|done].
  rewrite bind_lift_ok, result_bind_emit, events_bind_emit.
  destruct (save_due _ _) as [b|e]; [|done].
  rewrite bind_lift_ok, result_bind_emit, events_bind_emit, py_range_from_one.
  rewrite bind_lift_ok. intros Hr.
  change (EvSaveState 0 :: EvTestPolicy :: ?l) with ([EvSaveState 0; EvTestPolicy] ++ l).
  rewrite (env_steps_app [EvSaveState 0; EvTestPolicy]), length_app.
  rewrite (ddpg_loop_env_steps cfg _ _ _ Hr), length_map, length_seq. reflexivity.
Qed.

Lemma ddpg_run_env_steps_witness :
  length (env_steps (events (Fixtures.toy_ddpg_run
                               (Fixtures.toy_ddpg_config (flit 99 100) 1%float 1000))))
  = Z.to_nat (total_steps (Fixtures.toy_ddpg_config (flit 99 100) 1%float 1000)).
Proof.
  unfold Fixtures.toy_ddpg_run.
  match goal with |- context [events ?m] =>
    destruct (result m) as [s'|e] eqn:Hr; [|by vm_compute in Hr] end.
  apply (ddpg_run_env_steps (H0 := Fixtures.toy_ddpg)
           (Fixtures.toy_ddpg_config (flit 99 100) 1%float 1000) _ _ _ _ _ _ s' Hr).
Defined.

(** X11.  A pass that returns leaves the episode counter either one above
    its former value or at zero.  As long as the buffer holds fewer than
    [mb_size] transitions the counter is not reset, an episode that has just
    ended notwithstanding; at the step where the counter reaches
    [max_ep_length] with enough transitions in the buffer it is reset. *)
Theorem ddpg_step_episode_counter {F : Type} `{Scalar F} `{DdpgCollab F}
    (cfg : ddpg_config F) (samples : Z) (s s' : ddpg_state) :
  result (ddpg_step cfg samples s) = Ok s' ->
  (ep_length s' = (ep_length s + 1)%Z \/ ep_length s' = 0%Z)
  /\ ((Z.of_nat (rb_size (replay s')) < mb_size cfg)%Z ->
      ep_length s' = (ep_length s + 1)%Z)
  /\ ((ep_length s + 1)%Z = max_ep_length cfg ->
      (mb_size cfg <= Z.of_nat (rb_size (replay s')))%Z ->
      ep_length s' = 0%Z).
Proof.
  intros Hr. destruct (ddpg_step_run cfg samples s s' Hr) as (d & _ & _ & Hep).
  split; [|split].
  - rewrite Hep. destruct (_ && _); auto.
  - intros Hlt. rewrite Hep.
    destruct (Z.leb_spec (mb_size cfg) (Z.of_nat (rb_size (replay s')))); [lia|].
    by rewrite andb_false_r.
  - intros Hmax Hle. rewrite Hep.
    destruct (Z.leb_spec (mb_size cfg) (Z.of_nat (rb_size (replay s')))); [|lia].
    rewrite Hmax, Z.eqb_refl, orb_true_r. reflexivity.
Qed.

Lemma ddpg_step_episode_counter_witness :
  exists s',
    result (ddpg_step (Fixtures.toy_ddpg_config (flit 99 100) 1%float 1000) 4
              Fixtures.toy_ddpg_state) = Ok s'
    /\ (ep_length s' = 4%Z \/ ep_length s' = 0%Z).
Proof.
  destruct (result (ddpg_step (Fixtures.toy_ddpg_config (flit 99 100) 1%float 1000) 4
                      Fixtures.toy_ddpg_state)) as [s'|e] eqn:Hr;
    [|by vm_compute in Hr].
  exists s'. split; [done|].
  exact (proj1 (ddpg_step_episode_counter
                  (Fixtures.toy_ddpg_config (flit 99 100) 1%float 1000) 4
                  Fixtures.toy_ddpg_state s' Hr)).
Defined.

(** X12.  With [epoch = 0] no pass of the loop returns, so a run of at least
    one step never completes; when the environment reports a done flag and
    [int(ep_length * updates_per_step)] is defined, the pass raises the
    [ZeroDivisionError] of [samples % epoch], after it has stepped the
    environment. *)
Theorem ddpg_epoch_zero {F : Type} `{Scalar F} `{DdpgCollab F}
    (cfg : ddpg_config F) :
  epoch cfg = 0%Z ->
  (forall samples s s', result (ddpg_step cfg samples s) <> Ok s')
  /\ (forall reset_obs policy0 q_func0 pi_optim0 qf_optim0 w s',
        (1 <= total_steps cfg)%Z ->
        result (ddpg cfg reset_obs policy0 q_func0 pi_optim0 qf_optim0 w) <> Ok s')
  /\ (forall samples s,
        (forall acts w, exists obs2 rews d0 rest w',
            dc_env_step acts w = (obs2, rews, d0 :: rest, w')) ->
        to_int (of_Z (ep_length s + 1) * updates_per_step cfg)%S <> None ->
        result (ddpg_step cfg samples s) = Raise ZeroDivisionError
        /\ exists rest, events (ddpg_step cfg samples s) = EvEnvStep :: rest).
Proof.
  intros Hepoch. split; [|split].
  - intros samples s s' Hr.
    by destruct (ddpg_step_run cfg samples s s' Hr) as (_ & _ & Hne & _).
  - intros reset_obs policy0 q_func0 pi_optim0 qf_optim0 w s' Hsteps.
    unfold ddpg.
    destruct (rb_new (replay_size cfg)) as [rb|e]; [|done].
    rewrite bind_lift_ok, result_bind_emit.
    destruct (save_due _ _) as [b|e]; [|done].
    rewrite bind_lift_ok, result_bind_emit, py_range_from_one, bind_lift_ok.
    destruct (Z.to_nat (total_steps cfg)) as [|n] eqn:Hn; [lia|].
    cbn [seq map ddpg_loop]. rewrite result_bind.
    destruct (result (ddpg_step cfg _ _)) as [s1|e] eqn:Hstep; [|done].
    by destruct (ddpg_step_run cfg _ _ s1 Hstep) as (_ & _ & Hne & _).
  - intros samples s Henv Hint. unfold ddpg_step.
    destruct (if (samples <=? start_steps cfg)%Z then _ else _) as [acts w1].
    destruct (Henv acts w1) as (obs2 & rews & d0 & rest & w2 & ->).
    rewrite result_bind_emit, events_bind_emit. split; [|eauto].
    unfold mask_cutoff. rewrite bind_lift_ok.
    match goal with |- context [store_all 0 ?ts ?rb0] =>
      destruct (store_all_run ts 0 rb0) as (rb & Hrb & _) end.
    rewrite result_bind, Hrb. cbv beta iota. rewrite result_bind.
    match goal with |- context [learn_burst cfg ?d ?s1] =>
      assert (Hb : exists s2, result (learn_burst cfg d s1) = Ok s2) end.
    { match goal with |- context [learn_burst cfg ?d ?s1] =>
        destruct ((d || (ep_length s1 =? max_ep_length cfg)%Z)
                  && (mb_size cfg <=? Z.of_nat (rb_size (replay s1)))%Z) eqn:Hc;
        [destruct (to_int (of_Z (ep_length s1) * updates_per_step cfg)%S) as [n|] eqn:Hn;
         [destruct (learn_burst_run cfg d s1 n Hc Hn) as (_ & _ & s2 & Hr2 & _); eauto
         |by destruct Hint]
        |rewrite (learn_burst_skip cfg d s1 Hc); eauto] end. }
    destruct Hb as (s2 & ->). unfold epoch_end. by rewrite Hepoch.
Qed.

Lemma ddpg_epoch_zero_witness :
  result (ddpg_step Fixtures.toy_ddpg_config_epoch0 4 Fixtures.toy_ddpg_state)
  = Raise ZeroDivisionError
  /\ exists rest,
       events (ddpg_step Fixtures.toy_ddpg_config_epoch0 4 Fixtures.toy_ddpg_state)
       = EvEnvStep :: rest.
Proof.
  apply (proj2 (proj2 (ddpg_epoch_zero Fixtures.toy_ddpg_config_epoch0 eq_refl))).
  - intros acts w. by exists [S w], [1%float], (Nat.eqb (S w mod 3) 0), [], (S w).
  - discriminate.
Defined.

(** X13.  A learning burst that returns has neither stepped the environment
    nor handed anything to the replay buffer: buffer and current observation
    are those it was given. *)
Theorem learn_burst_leaves_buffer {F : Type} `{Scalar F} `{DdpgCollab F}
    (cfg : ddpg_config F) (done0 : bool) (s s' : ddpg_state) :
  result (learn_burst cfg done0 s) = Ok s' ->
  replay s' = replay s /\ obs1 s' = obs1 s
  /\ env_steps (events (learn_burst cfg done0 s)) = []
  /\ stored_dones (events (learn_burst cfg done0 s)) = [].
Proof.
  intros Hr.
  destruct (learn_burst_frame cfg done0 s s' Hr) as (Ho & Hb & Hv & Hd & _).
  done.
Qed.

Lemma learn_burst_leaves_buffer_witness :
  exists s',
    result (learn_burst (Fixtures.toy_ddpg_config (flit 99 100) 1%float 1000) true
              Fixtures.toy_ddpg_state) = Ok s'
    /\ replay s' = replay Fixtures.toy_ddpg_state.
Proof.
  destruct (result (learn_burst (Fixtures.toy_ddpg_config (flit 99 100) 1%float 1000)
                      true Fixtures.toy_ddpg_state)) as [s'|e] eqn:Hr;
    [|by vm_compute in Hr].
  exists s'. split; [done|].
  exact (proj1 (learn_burst_leaves_buffer
                  (Fixtures.toy_ddpg_config (flit 99 100) 1%float 1000) true
                  Fixtures.toy_ddpg_state s' Hr)).
Defined.

(** ** The snapshot saver *)

Lemma string_append_cons (a : ascii) (s t : string) :
  (String a s ++ t)%string = String a (s ++ t)%string.
Proof. reflexivity. Qed.

Lemma string_append_nil_r (s : string) : (s ++ "")%string = s.
Proof.
  induction s as [|a s IH]; [done|]. by rewrite string_append_cons, IH.
Qed.

Lemma before_dot_uint (d : Decimal.uint) (t : string) :
  before_dot (NilEmpty.string_of_uint d ++ t)
  = (NilEmpty.string_of_uint d ++ before_dot t)%string.
Proof.
  induction d; cbn [NilEmpty.string_of_uint]; [done|..];
    rewrite !string_append_cons; cbn [before_dot]; simpl; by rewrite IHd.
Qed.

Lemma before_dot_string_of_Z (z : Z) (t : string) :
  before_dot (string_of_Z z ++ String "." t) = string_of_Z z.
Proof.
  assert (Hu : forall d,
    before_dot (NilZero.string_of_uint d ++ String "." t) = NilZero.string_of_uint d).
  { intros d.
    assert (He : NilZero.string_of_uint d
                 = NilEmpty.string_of_uint
                     (match d with Decimal.Nil => Decimal.D0 Decimal.Nil | _ => d end))
      by (by destruct d).
    rewrite He, before_dot_uint. simpl. apply string_append_nil_r. }
  unfold string_of_Z, NilZero.string_of_int.
  destruct (Z.to_int z) as [d|d]; [apply Hu|].
  rewrite string_append_cons. cbn [before_dot]. simpl. by rewrite Hu.
Qed.

Lemma Z_of_string_of_Z (z : Z) : Z_of_string (string_of_Z z) = Some z.
Proof.
  unfold Z_of_string, string_of_Z.
  rewrite NilZero.isi.
  - simpl. by rewrite DecimalZ.of_to.
  - destruct z; simpl; try discriminate.
    intros [= E]. by apply DecimalPos.Unsigned.to_uint_nonnil in E.
  - destruct z; simpl; try discriminate.
    intros [= E]. by apply DecimalPos.Unsigned.to_uint_nonnil in E.
Qed.

Lemma snapshot_index_pkl (z : Z) :
  snapshot_index (string_of_Z z ++ ".pkl") = Some z.
Proof.
  unfold snapshot_index. by rewrite before_dot_string_of_Z, Z_of_string_of_Z.
Qed.

Lemma pkl_name_inj (i j : Z) :
  (string_of_Z i ++ ".pkl")%string = (string_of_Z j ++ ".pkl")%string -> i = j.
Proof.
  intros E. apply (f_equal snapshot_index) in E.
  rewrite !snapshot_index_pkl in E. congruence.
Qed.

Lemma pkl_name_not_latest (i : Z) :
  (string_of_Z i ++ ".pkl")%string <> "latest.pkl"%string.
Proof.
  intros E. apply (f_equal snapshot_index) in E.
  rewrite snapshot_index_pkl in E. discriminate E.
Qed.

Lemma keyed_pkl (ks : list Z) :
  keyed (map (fun k => (string_of_Z k ++ ".pkl")%string) ks)
  = Some (map (fun k => (k, (string_of_Z k ++ ".pkl")%string)) ks).
Proof.
  induction ks as [|k ks IH]; [done|].
  cbn [map keyed]. by rewrite snapshot_index_pkl, IH.
Qed.

Lemma keyed_not_a_number (n : string) (names : list string) :
  n ∈ names -> snapshot_index n = None -> keyed names = None.
Proof.
  intros Hin Hn. induction names as [|m names IH]; [by apply elem_of_nil in Hin|].
  apply elem_of_cons in Hin as [<-|Hin]; cbn [keyed].
  - by rewrite Hn.
  - rewrite (IH Hin). by destruct (snapshot_index m).
Qed.

Lemma insert_by_key_perm (x : Z * string) (l : list (Z * string)) :
  insert_by_key x l ≡ₚ x :: l.
Proof.
  induction l as [|y l IH]; [done|].
  cbn [insert_by_key]. destruct (x.1 <=? y.1)%Z; [done|].
  rewrite IH. apply Permutation_swap.
Qed.

Lemma sorted_by_key_perm (l : list (Z * string)) : sorted_by_key l ≡ₚ l.
Proof.
  induction l as [|x l IH]; [done|].
  unfold sorted_by_key in *. cbn [foldr]. by rewrite insert_by_key_perm, IH.
Qed.

Lemma insert_by_key_sorted (x : Z * string) (l : list (Z * string)) :
  StronglySorted (fun a b => (a.1 <= b.1)%Z) l ->
  StronglySorted (fun a b => (a.1 <= b.1)%Z) (insert_by_key x l).
Proof.
  induction l as [|y l IH]; intros Hs; cbn [insert_by_key].
  - repeat constructor.
  - apply StronglySorted_cons in Hs as [Hy Hl].
    destruct (Z.leb_spec x.1 y.1) as [Hle|Hgt].
    + constructor; [by constructor|].
      constructor; [done|].
      eapply Forall_impl; [exact Hy|]. intros z Hz. simpl in *. lia.
    + constructor; [by apply IH|].
      rewrite insert_by_key_perm. constructor; [simpl; lia|done].
Qed.

Lemma sorted_by_key_sorted (l : list (Z * string)) :
  StronglySorted (fun a b => (a.1 <= b.1)%Z) (sorted_by_key l).
Proof.
  induction l as [|x l IH]; [constructor|].
  unfold sorted_by_key in *. cbn [foldr]. by apply insert_by_key_sorted.
Qed.

Section SaverFacts.

Context {Config State : Type}.

Lemma load_first_descending (files : gmap string (snapshot_file Config State))
    (S : list (Z * string)) (i : Z) (c : Config * State) :
  StronglySorted (fun a b => (a.1 <= b.1)%Z) S ->
  (forall k n, (k, n) ∈ S -> n = (string_of_Z k ++ ".pkl")%string) ->
  (i, (string_of_Z i ++ ".pkl")%string) ∈ S ->
  files !! (string_of_Z i ++ ".pkl")%string = Some (Loadable c) ->
  (forall k n, (k, n) ∈ S -> (i < k)%Z -> files !! n = Some Truncated) ->
  load_first (Some files) (map snd (rev S)) = Done (Some c).
Proof.
  induction S as [|[k n] S IH] using rev_ind; intros Hs Hname Hin Hi Hgt.
  - by apply elem_of_nil in Hin.
  - rewrite rev_unit. cbn [map load_first snd open_and_load].
    destruct (decide (k = i)) as [->|Hne].
    + rewrite (Hname i n) by (apply elem_of_app; right; by apply list_elem_of_singleton).
      by rewrite Hi.
    + apply elem_of_app in Hin as [Hin|Hin];
        [|apply list_elem_of_singleton in Hin; congruence].
      assert (Hle : (i <= k)%Z).
      { assert (Hkn : (k, n) ∈ [(k, n)]) by by apply list_elem_of_singleton.
        exact (StronglySorted_app_1_elem_of _ _ _ _ _ Hs Hin Hkn). }
      rewrite (Hgt k n) by (first [lia | apply elem_of_app; right;
                                          by apply list_elem_of_singleton]).
      apply IH; [by eapply StronglySorted_app_1_l| | done | done |].
      * intros k' n' H'. apply Hname, elem_of_app. by left.
      * intros k' n' H'. apply Hgt, elem_of_app. by left.
Qed.

Lemma load_first_all_truncated (files : gmap string (snapshot_file Config State))
    (names : list string) :
  (forall n, n ∈ names -> files !! n = Some Truncated) ->
  load_first (Some files) names = Done None.
Proof.
  induction names as [|n names IH]; intros Hall; [done|].
  cbn [load_first open_and_load].
  rewrite (Hall n) by apply list_elem_of_here.
  apply IH. intros m Hm. apply Hall. by apply list_elem_of_further.
Qed.

Variable saved_as : Config * State -> snapshot_file Config State.

Lemma save_state_writes (sv : SnapshotSaver Config) (i : Z) (st : State)
    (fd : folder Config State) :
  i = 1%Z \/ (save_interval sv <> 0%Z /\ (i mod save_interval sv = 0)%Z) ->
  save_state saved_as sv i st fd
  = Done (Some (<[get_snapshot_path sv i := saved_as (config sv, st)]> (default ∅ fd))).
Proof.
  intros Hw. unfold save_state, save_due.
  destruct (Z.eqb_spec i 1) as [|Hi]; [done|].
  destruct Hw as [|[Hk Hm]]; [done|].
  destruct (Z.eqb_spec (save_interval sv) 0) as [|_]; [done|].
  by rewrite Hm.
Qed.

End SaverFacts.

(** X14.  In latest-only mode a save that writes (index 1, or a multiple of a
    non-zero save interval) leaves the one file that [get_state] opens,
    whatever index either call is given: [get_state] returns what
    [torch.load] makes of the file just written - its content when it
    unpickles, [None] on an [EOFError], the exception otherwise. *)
Theorem save_state_latest_round_trip {Config State : Type}
    (saved_as : Config * State -> snapshot_file Config State)
    (sv : SnapshotSaver Config) (i : Z) (st : State) (fd : folder Config State) :
  latest_only sv = true ->
  i = 1%Z \/ (save_interval sv <> 0%Z /\ (i mod save_interval sv = 0)%Z) ->
  exists fd',
    save_state saved_as sv i st fd = Done fd'
    /\ forall idx listing,
         get_state sv idx fd' listing = load_or_pass (saved_as (config sv, st)).
Proof.
  intros Hl Hw. rewrite (save_state_writes saved_as sv i st fd Hw).
  eexists; split; [reflexivity|].
  intros idx listing. unfold get_state, get_snapshot_path. rewrite Hl.
  unfold open_and_load. by rewrite lookup_insert_eq.
Qed.

Lemma save_state_latest_round_trip_witness :
  exists fd',
    save_state Fixtures.refused Fixtures.toy_latest_saver 20 7%Z None = Done fd'
    /\ forall idx listing,
         get_state Fixtures.toy_latest_saver idx fd' listing = Failed LoadError.
Proof.
  destruct (save_state_latest_round_trip Fixtures.refused Fixtures.toy_latest_saver
              20 7%Z None eq_refl) as (fd' & Hsave & Hget).
  - right. split; [discriminate|reflexivity].
  - exists fd'. split; [exact Hsave|]. intros idx listing. by rewrite Hget.
Defined.

(** X15.  In indexed mode a save that writes at index [i] leaves the file
    that [get_state] opens for [i]: [get_state] returns what [torch.load]
    makes of the file just written; and what [get_state] gives at any other
    index is what it gave before the save. *)
Theorem save_state_indexed_round_trip {Config State : Type}
    (saved_as : Config * State -> snapshot_file Config State)
    (sv : SnapshotSaver Config) (i : Z) (st : State) (fd : folder Config State) :
  latest_only sv = false ->
  i = 1%Z \/ (save_interval sv <> 0%Z /\ (i mod save_interval sv = 0)%Z) ->
  exists fd',
    save_state saved_as sv i st fd = Done fd'
    /\ (forall listing,
          get_state sv (Some i) fd' listing = load_or_pass (saved_as (config sv, st)))
    /\ (forall j listing, j <> i ->
          get_state sv (Some j) fd' listing = get_state sv (Some j) fd listing).
Proof.
  intros Hl Hw. rewrite (save_state_writes saved_as sv i st fd Hw).
  eexists; split; [reflexivity|]. split.
  - intros listing. unfold get_state, get_snapshot_path. rewrite Hl.
    unfold open_and_load. by rewrite lookup_insert_eq.
  - intros j listing Hj. unfold get_state, get_snapshot_path. rewrite Hl.
    unfold open_and_load.
    rewrite lookup_insert_ne by (intros E; by apply pkl_name_inj in E).
    destruct fd as [files|]; [done|]. cbn [default]. by rewrite lookup_empty.
Qed.

Lemma save_state_indexed_round_trip_witness :
  exists fd',
    save_state Fixtures.reads_back Fixtures.toy_indexed_saver 20 7%Z
      (Some Fixtures.toy_snapshots) = Done fd'
    /\ (forall listing,
          get_state Fixtures.toy_indexed_saver (Some 20%Z) fd' listing
          = Done (Some (tt, 7%Z)))
    /\ (forall j listing, j <> 20%Z ->
          get_state Fixtures.toy_indexed_saver (Some j) fd' listing
          = get_state Fixtures.toy_indexed_saver (Some j)
              (Some Fixtures.toy_snapshots) listing).
Proof.
  apply (save_state_indexed_round_trip Fixtures.reads_back Fixtures.toy_indexed_saver
           20 7%Z (Some Fixtures.toy_snapshots)); [reflexivity|].
  right. split; [discriminate|reflexivity].
Defined.

(** X16.  Without an index, an indexed saver over a folder listing the
    snapshots numbered [ks], in any order, returns the snapshot of the
    greatest number that unpickles when every greater one is cut short, and
    [None] when all of them are cut short. *)
Theorem get_state_scan_greatest {Config State : Type} (sv : SnapshotSaver Config)
    (files : gmap string (snapshot_file Config State)) (ks : list Z) :
  latest_only sv = false ->
  (forall i c, i ∈ ks ->
     files !! get_snapshot_path sv i = Some (Loadable c) ->
     (forall j, j ∈ ks -> (i < j)%Z ->
        files !! get_snapshot_path sv j = Some Truncated) ->
     get_state sv None (Some files) (map (get_snapshot_path sv) ks) = Done (Some c))
  /\ ((forall j, j ∈ ks -> files !! get_snapshot_path sv j = Some Truncated) ->
      get_state sv None (Some files) (map (get_snapshot_path sv) ks) = Done None).
Proof.
  intros Hl.
  assert (Hp : forall k, get_snapshot_path sv k = (string_of_Z k ++ ".pkl")%string)
    by (intros k; unfold get_snapshot_path; by rewrite Hl).
  assert (Hm : map (get_snapshot_path sv) ks
               = map (fun k => (string_of_Z k ++ ".pkl")%string) ks)
    by (apply map_ext; exact Hp).
  assert (Hel : forall k n,
    (k, n) ∈ sorted_by_key (map (fun k => (k, (string_of_Z k ++ ".pkl")%string)) ks)
    <-> k ∈ ks /\ n = (string_of_Z k ++ ".pkl")%string).
  { intros k n. rewrite sorted_by_key_perm, !list_elem_of_In, in_map_iff. split.
    - by intros (k' & [= <- <-] & Hk').
    - intros [Hk ->]. by exists k. }
  unfold get_state. rewrite Hl, Hm, keyed_pkl. split.
  - intros i c Hi Hload Hgt. rewrite Hp in Hload.
    apply (load_first_descending files _ i c).
    + apply sorted_by_key_sorted.
    + intros k n Hkn. by apply Hel in Hkn as [_ ->].
    + by apply Hel.
    + exact Hload.
    + intros k n Hkn Hlt. apply Hel in Hkn as [Hk ->].
      rewrite <- Hp. by apply Hgt.
  - intros Hall. apply load_first_all_truncated.
    intros n Hn. apply list_elem_of_In, in_map_iff in Hn as ([k n'] & <- & Hkn).
    apply in_rev, list_elem_of_In, Hel in Hkn as [Hk ->].
    cbn [snd]. rewrite <- Hp. by apply Hall.
Qed.

Lemma get_state_scan_greatest_witness :
  get_state Fixtures.toy_indexed_saver None (Some Fixtures.toy_snapshots)
    (map (get_snapshot_path Fixtures.toy_indexed_saver) [10%Z; 1%Z; 9%Z])
  = Done (Some (tt, 9%Z)).
Proof.
  apply (proj1 (get_state_scan_greatest Fixtures.toy_indexed_saver
                  Fixtures.toy_snapshots [10%Z; 1%Z; 9%Z] eq_refl) 9%Z (tt, 9%Z)).
  - set_solver.
  - reflexivity.
  - intros j Hj Hlt.
    apply elem_of_cons in Hj as [->|Hj]; [reflexivity|].
    apply elem_of_cons in Hj as [->|Hj]; [lia|].
    apply list_elem_of_singleton in Hj as ->. lia.
Defined.

(** X17.  A saver built without [latest_only] over the folder a writing save
    has left picks the mode of the saver that wrote, provided an indexed
    saver did not write beside a [latest.pkl]. *)
Theorem saver_mode_after_save {Config State : Type}
    (saved_as : Config * State -> snapshot_file Config State)
    (sv : SnapshotSaver Config) (i : Z) (st : State) (fd : folder Config State)
    (files' : gmap string (snapshot_file Config State)) (listing : list string)
    (cfg' : Config) (interval' : Z) :
  i = 1%Z \/ (save_interval sv <> 0%Z /\ (i mod save_interval sv = 0)%Z) ->
  (latest_only sv = false ->
   forall files, fd = Some files -> files !! "latest.pkl"%string = None) ->
  save_state saved_as sv i st fd = Done (Some files') ->
  listing ≡ₚ (map_to_list files').*1 ->
  latest_only (SnapshotSaver_init (Some files') listing cfg' interval' None)
  = latest_only sv.
Proof.
  intros Hw Hfd Hsave Hperm. rewrite (save_state_writes saved_as sv i st fd Hw) in Hsave.
  injection Hsave as <-. unfold SnapshotSaver_init. cbn [latest_only].
  unfold get_snapshot_path in *.
  destruct (latest_only sv) eqn:Hl.
  - rewrite lookup_insert_eq. by rewrite bool_decide_true by eauto.
  - rewrite lookup_insert_ne by apply pkl_name_not_latest.
    assert (Hnone : default ∅ fd !! "latest.pkl"%string = None).
    { destruct fd as [files|]; [by apply Hfd|apply lookup_empty]. }
    rewrite Hnone, bool_decide_false by (by intros [? ?]).
    assert (Hin : (string_of_Z i ++ ".pkl")%string ∈ listing).
    { rewrite Hperm. apply list_elem_of_fmap.
      exists ((string_of_Z i ++ ".pkl")%string, saved_as (config sv, st)).
      split; [done|]. apply elem_of_map_to_list. by rewrite lookup_insert_eq. }
    destruct listing as [|n listing]; [by apply elem_of_nil in Hin|done].
Qed.

Lemma saver_mode_after_save_witness :
  latest_only (SnapshotSaver_init
                 (Some (<["1.pkl"%string := Loadable (tt, 7%Z)]> ∅))
                 ["1.pkl"%string] tt 5 None)
  = latest_only Fixtures.toy_indexed_saver.
Proof.
  apply (saver_mode_after_save Fixtures.reads_back Fixtures.toy_indexed_saver 1 7%Z None
           (<["1.pkl"%string := Loadable (tt, 7%Z)]> ∅) ["1.pkl"%string] tt 5).
  - by left.
  - intros _ files [=].
  - reflexivity.
  - by vm_compute.
Defined.

(** X18.  Without an index, an indexed saver over an existing folder whose
    listing holds [latest.pkl] fails with a [ValueError] before any file is
    opened, whatever numbered snapshots lie beside it. *)
Theorem get_state_scan_latest_file {Config State : Type} (sv : SnapshotSaver Config)
    (files : gmap string (snapshot_file Config State)) (listing : list string) :
  latest_only sv = false ->
  "latest.pkl"%string ∈ listing ->
  get_state sv None (Some files) listing = Failed (Builtin ValueError).
Proof.
  intros Hl Hin. unfold get_state. rewrite Hl.
  by rewrite (keyed_not_a_number "latest.pkl" listing Hin eq_refl).
Qed.

Lemma get_state_scan_latest_file_witness :
  get_state Fixtures.toy_indexed_saver None (Some Fixtures.toy_mixed_snapshots)
    ["1.pkl"%string; "latest.pkl"%string]
  = Failed (Builtin ValueError).
Proof.
  apply (get_state_scan_latest_file Fixtures.toy_indexed_saver
           Fixtures.toy_mixed_snapshots); [reflexivity|set_solver].
Defined.
